(** * debAIt: provider orchestration, session registry and discussion prompts

    A shallow embedding of [server.js]: the three command-line agent
    adapters ([callClaude], [callGemini], [callCodex]), the line-delimited
    event parser [parseCodexJSONL], the usage extractor [extractTokens], the
    prompt synthesizer [formatDiscussionPrompt] and the [/new] and [/ask]
    request handlers over the [sessions] map; further the log queue ([log],
    [writeLogsToFile]) and the [/logs], [/providers] and [/discuss]
    handlers.

    - JavaScript values are [json] (what [JSON.parse] can return) and
      [value := option json], where [None] is [undefined].  Numbers are the
      integers (exit codes, turn and token counts).  Strings are the UTF-8
      bytes of the JavaScript string.
    - A thrown exception is the [Throw] result of the [js] monad; mutable
      state that survives a [throw] is threaded by the [M] monad.
    - [JSON.parse], [JSON.stringify], [buffer.toString()] and the
      comparison [Number(s) > 0] are parameters of the program
      ([Section Runtime]).
    - An adapter is a reaction to the events of its process and of its
      timer; the event loop delivers the timer callback 120000 ms after
      the spawn unless the timer was cleared.
    - A request handler is split at its [await]: [ask_begin] runs up to the
      adapter call, [ask_end] from the settlement of its promise on.
      Requests are served one at a time.
    - The transcript of a discussion is a list of records with string
      fields, and the participant list a list of strings. *)

From Stdlib Require Import ZArith String Ascii List Bool Lia.
From stdpp Require Import gmap strings pretty.
Import ListNotations.

Local Open Scope string_scope.
Local Open Scope Z_scope.
Set Warnings "-register-all".

(** ** Strings *)

Definition byte_is (c : ascii) (n : nat) : bool := Nat.eqb (nat_of_ascii c) n.

(** White space and line terminators of ECMAScript that fit in one byte:
    TAB, LF, VT, FF, CR, SP. *)
Definition space1 (c : ascii) : bool :=
  let n := nat_of_ascii c in
  (Nat.leb 9 n && Nat.leb n 13) || Nat.eqb n 32.

(** U+00A0, encoded C2 A0. *)
Definition space2 (c d : ascii) : bool := byte_is c 194 && byte_is d 160.

(** U+1680, U+2000..U+200A, U+2028, U+2029, U+202F, U+205F, U+3000 and
    U+FEFF, each three bytes long. *)
Definition space3 (c d e : ascii) : bool :=
  let x := nat_of_ascii e in
  (byte_is c 225 && byte_is d 154 && byte_is e 128)
  || (byte_is c 226 && byte_is d 128
      && ((Nat.leb 128 x && Nat.leb x 138) || Nat.eqb x 168 || Nat.eqb x 169 || Nat.eqb x 175))
  || (byte_is c 226 && byte_is d 129 && byte_is e 159)
  || (byte_is c 227 && byte_is d 128 && byte_is e 128)
  || (byte_is c 239 && byte_is d 187 && byte_is e 191).

(** Drop leading white space.  With [back] set the input is a reversed
    string, so the bytes of a multi-byte space arrive last byte first. *)
Fixpoint strip (back : bool) (s : string) : string :=
  match s with
  | EmptyString => EmptyString
  | String c s1 =>
    if space1 c then strip back s1 else
    match s1 with
    | EmptyString => s
    | String d s2 =>
      if (if back then space2 d c else space2 c d) then strip back s2 else
      match s2 with
      | EmptyString => s
      | String e s3 =>
        if (if back then space3 e d c else space3 c d e) then strip back s3 else s
      end
    end
  end.

Definition reverse_string (s : string) : string :=
  string_of_list_ascii (rev (list_ascii_of_string s)).

(** [String.prototype.trim] *)
Definition trim (s : string) : string :=
  reverse_string (strip true (reverse_string (strip false s))).

Definition newline : ascii := ascii_of_nat 10.

(** [s.split("\n")]: the pieces between line feeds; one piece for a string
    without a line feed, the empty string included. *)
Fixpoint split_lines (s : string) : list string :=
  match s with
  | EmptyString => [EmptyString]
  | String c rest =>
    if Ascii.eqb c newline then EmptyString :: split_lines rest
    else match split_lines rest with
         | [] => [String c EmptyString]
         | piece :: more => String c piece :: more
         end
  end.

Definition nonempty (s : string) : bool :=
  match s with EmptyString => false | _ => true end.

(** [s.startsWith(x)] *)
Fixpoint starts_with (x s : string) : bool :=
  match x, s with
  | EmptyString, _ => true
  | String a x', String b s' => Ascii.eqb a b && starts_with x' s'
  | String _ _, EmptyString => false
  end.

(** [hay.includes(needle)] *)
Fixpoint contains (needle hay : string) : bool :=
  starts_with needle hay
  || match hay with
     | EmptyString => false
     | String _ rest => contains needle rest
     end.

(** [list.join(sep)] on strings *)
Fixpoint join (sep : string) (l : list string) : string :=
  match l with
  | [] => ""
  | [x] => x
  | x :: rest => x ++ sep ++ join sep rest
  end.

(** ** JavaScript values *)

Inductive json : Type :=
| JNull
| JBool (b : bool)
| JNum (n : Z)
| JStr (s : string)
| JArr (items : list json)
| JObj (fields : list (string * json)).

(** [None] is [undefined]. *)
Definition value : Type := option json.
Definition undefined : value := None.

Inductive exn : Type :=
| Error (message : string)      (* new Error(message), SyntaxError *)
| TypeError.                    (* raised by the engine; its text is the engine's *)

Inductive js (A : Type) : Type :=
| Ok (a : A)
| Throw (e : exn).
Arguments Ok {A} a.
Arguments Throw {A} e.

Definition js_bind {A B} (m : js A) (k : A -> js B) : js B :=
  match m with
  | Ok a => k a
  | Throw e => Throw e
  end.

(** Truthiness: [undefined], [null], [false], [0] and [""] are falsy. *)
Definition truthy (v : value) : bool :=
  match v with
  | None | Some JNull | Some (JBool false) => false
  | Some (JNum n) => negb (n =? 0)
  | Some (JStr s) => nonempty s
  | Some _ => true
  end.

(** [a || b] *)
Definition js_or (a b : value) : value := if truthy a then a else b.

(** [v === "s"] *)
Definition is_string (v : value) (s : string) : bool :=
  match v with
  | Some (JStr t) => String.eqb t s
  | _ => false
  end.

Fixpoint assoc (k : string) (fields : list (string * json)) : value :=
  match fields with
  | [] => None
  | (k', v) :: rest => if String.eqb k' k then Some v else assoc k rest
  end.

(** Property read [v.k], for the property names the program uses (none of
    them is a member of a built-in prototype): a [TypeError] on [undefined]
    and [null], the own property of an object, [undefined] elsewhere. *)
Definition get (v : value) (k : string) : js value :=
  match v with
  | None | Some JNull => Throw TypeError
  | Some (JObj fields) => Ok (assoc k fields)
  | Some _ => Ok None
  end.

(** [v.slice(0, n)]: strings and arrays have the method; on any other
    value [v.slice] is not a function and the call raises a [TypeError]. *)
Definition slice (v : value) (n : nat) : js value :=
  match v with
  | Some (JStr s) => Ok (Some (JStr (String.substring 0 n s)))
  | Some (JArr items) => Ok (Some (JArr (firstn n items)))
  | _ => Throw TypeError
  end.

(** [String(v)], as in a template literal or a string concatenation. *)
Fixpoint to_string (v : json) : string :=
  match v with
  | JNull => "null"
  | JBool true => "true"
  | JBool false => "false"
  | JNum n => pretty n
  | JStr s => s
  | JArr items =>
    (fix elements (l : list json) : string :=
       match l with
       | [] => ""
       | x :: rest =>
         (match x with JNull => "" | _ => to_string x end)
         ++ match rest with [] => "" | _ => "," ++ elements rest end
       end) items
  | JObj _ => "[object Object]"
  end.

Definition text (v : value) : string :=
  match v with
  | None => "undefined"
  | Some j => to_string j
  end.

(** [a + b] on values of [JSON.parse]: concatenation as soon as one side
    is a string, an array or an object, the sum of the numbers otherwise
    ([null] and [false] count 0, [true] counts 1).  The sum is that of the
    integers, which is the engine's on integers up to 2^53 whose sum is
    one; the facts about sums are stated in that range. *)
Definition to_number (v : json) : option Z :=
  match v with
  | JNull | JBool false => Some 0
  | JBool true => Some 1
  | JNum n => Some n
  | _ => None
  end.

Definition js_add (a b : json) : json :=
  match to_number a, to_number b with
  | Some x, Some y => JNum (x + y)
  | _, _ => JStr (to_string a ++ to_string b)
  end.

(** [Object.values(v)] *)
Definition object_values (v : json) : list json :=
  match v with
  | JObj fields => map snd fields
  | JArr items => items
  | JStr s => map (fun c => JStr (String c EmptyString)) (list_ascii_of_string s)
  | _ => []
  end.

(** An object literal: a property whose value is [undefined] reads the
    same as a missing one, and is not kept. *)
Fixpoint defined_fields (l : list (string * value)) : list (string * json) :=
  match l with
  | [] => []
  | (k, Some v) :: rest => (k, v) :: defined_fields rest
  | (_, None) :: rest => defined_fields rest
  end.

Definition object (fields : list (string * value)) : json :=
  JObj (defined_fields fields).

(** ** A reference [JSON.parse]

    [JSON.parse] belongs to the runtime.  The program below takes it as a
    parameter, and every general theorem holds for any parser.  To run the
    program on concrete text, [RefJSON.parse] reads the part of JSON whose
    numbers are integers and whose strings have no [\u] escape; on that
    part it returns what [JSON.parse] returns, [None] standing for the
    [SyntaxError]. *)
Module RefJSON.

Definition is_ws (c : ascii) : bool :=
  let n := nat_of_ascii c in
  Nat.eqb n 32 || Nat.eqb n 9 || Nat.eqb n 10 || Nat.eqb n 13.

Fixpoint skip_ws (s : string) : string :=
  match s with
  | String c rest => if is_ws c then skip_ws rest else s
  | EmptyString => s
  end.

Definition digit (c : ascii) : option Z :=
  let n := nat_of_ascii c in
  if Nat.leb 48 n && Nat.leb n 57 then Some (Z.of_nat (n - 48)) else None.

Fixpoint digits (acc : Z) (s : string) : Z * string :=
  match s with
  | String c rest =>
    match digit c with
    | Some d => digits (10 * acc + d) rest
    | None => (acc, s)
    end
  | EmptyString => (acc, s)
  end.

(** After the integer part: a fraction or an exponent is not represented. *)
Definition integer_ends (s : string) : bool :=
  match s with
  | String c _ => negb (byte_is c 46 || byte_is c 101 || byte_is c 69)
  | EmptyString => true
  end.

Definition natural (s : string) : option (Z * string) :=
  match s with
  | String c rest =>
    match digit c with
    | Some 0 =>
      match rest with
      | String d _ =>
        match digit d with
        | Some _ => None
        | None => if integer_ends rest then Some (0, rest) else None
        end
      | EmptyString => Some (0, rest)
      end
    | Some d => let '(n, r) := digits d rest in if integer_ends r then Some (n, r) else None
    | None => None
    end
  | EmptyString => None
  end.

Definition escape (c : ascii) : option ascii :=
  let n := nat_of_ascii c in
  if Nat.eqb n 34 || Nat.eqb n 92 || Nat.eqb n 47 then Some c
  else if Nat.eqb n 98 then Some (ascii_of_nat 8)
  else if Nat.eqb n 102 then Some (ascii_of_nat 12)
  else if Nat.eqb n 110 then Some (ascii_of_nat 10)
  else if Nat.eqb n 114 then Some (ascii_of_nat 13)
  else if Nat.eqb n 116 then Some (ascii_of_nat 9)
  else None.

(** The characters of a string literal, after its opening quote. *)
Fixpoint chars (s : string) : option (string * string) :=
  match s with
  | EmptyString => None
  | String c rest =>
    if byte_is c 34 then Some (EmptyString, rest)
    else if byte_is c 92 then
      match rest with
      | String e rest' =>
        match escape e, chars rest' with
        | Some x, Some (body, r) => Some (String x body, r)
        | _, _ => None
        end
      | EmptyString => None
      end
    else if Nat.ltb (nat_of_ascii c) 32 then None
    else match chars rest with
         | Some (body, r) => Some (String c body, r)
         | None => None
         end
  end.

(** A repeated key keeps its first position and takes the last value. *)
Fixpoint set_field (k : string) (v : json) (fields : list (string * json)) : list (string * json) :=
  match fields with
  | [] => [(k, v)]
  | (k', v') :: rest =>
    if String.eqb k' k then (k', v) :: rest else (k', v') :: set_field k v rest
  end.

Definition members_object (raw : list (string * json)) : json :=
  JObj (fold_left (fun acc kv => set_field (fst kv) (snd kv) acc) raw []).

Fixpoint parse_value (fuel : nat) (s : string) : option (json * string) :=
  match fuel with
  | O => None
  | S fuel' =>
    match skip_ws s with
    | String "n" (String "u" (String "l" (String "l" r))) => Some (JNull, r)
    | String "t" (String "r" (String "u" (String "e" r))) => Some (JBool true, r)
    | String "f" (String "a" (String "l" (String "s" (String "e" r)))) => Some (JBool false, r)
    | String "-" r =>
      match natural r with
      | Some (n, r') => Some (JNum (- n), r')
      | None => None
      end
    | String "[" r =>
      match skip_ws r with
      | String "]" r' => Some (JArr [], r')
      | _ =>
        match parse_items fuel' r with
        | Some (items, r') => Some (JArr items, r')
        | None => None
        end
      end
    | String "{" r =>
      match skip_ws r with
      | String "}" r' => Some (JObj [], r')
      | _ =>
        match parse_members fuel' r with
        | Some (raw, r') => Some (members_object raw, r')
        | None => None
        end
      end
    | String c r =>
      if byte_is c 34 then
        match chars r with
        | Some (body, r') => Some (JStr body, r')
        | None => None
        end
      else
        match natural (String c r) with
        | Some (n, r') => Some (JNum n, r')
        | None => None
        end
    | EmptyString => None
    end
  end
with parse_items (fuel : nat) (s : string) : option (list json * string) :=
  match fuel with
  | O => None
  | S fuel' =>
    match parse_value fuel' s with
    | Some (v, r) =>
      match skip_ws r with
      | String "," r' =>
        match parse_items fuel' r' with
        | Some (more, r'') => Some (v :: more, r'')
        | None => None
        end
      | String "]" r' => Some ([v], r')
      | _ => None
      end
    | None => None
    end
  end
with parse_members (fuel : nat) (s : string) : option (list (string * json) * string) :=
  match fuel with
  | O => None
  | S fuel' =>
    match skip_ws s with
    | String c r =>
      if byte_is c 34 then
        match chars r with
        | Some (k, r1) =>
          match skip_ws r1 with
          | String ":" r2 =>
            match parse_value fuel' r2 with
            | Some (v, r3) =>
              match skip_ws r3 with
              | String "," r4 =>
                match parse_members fuel' r4 with
                | Some (more, r5) => Some ((k, v) :: more, r5)
                | None => None
                end
              | String "}" r4 => Some ([(k, v)], r4)
              | _ => None
              end
            | None => None
            end
          | _ => None
          end
        | None => None
        end
      else None
    | EmptyString => None
    end
  end.

Definition parse (s : string) : option json :=
  match parse_value (2 * String.length s + 2) s with
  | Some (v, r) => match skip_ws r with EmptyString => Some v | _ => None end
  | None => None
  end.

(** A reference [JSON.stringify] for the same part of JSON: no white
    space, the two-character escapes for the quote, the backslash and the
    control characters that have one.  The other control characters, which
    [JSON.stringify] writes as [\u] escapes, are outside this part. *)
Definition print_char (c : ascii) : string :=
  let n := nat_of_ascii c in
  let escaped (e : nat) := String (ascii_of_nat 92) (String (ascii_of_nat e) EmptyString) in
  if Nat.eqb n 34 then escaped 34%nat
  else if Nat.eqb n 92 then escaped 92%nat
  else if Nat.eqb n 8 then escaped 98%nat
  else if Nat.eqb n 12 then escaped 102%nat
  else if Nat.eqb n 10 then escaped 110%nat
  else if Nat.eqb n 13 then escaped 114%nat
  else if Nat.eqb n 9 then escaped 116%nat
  else String c EmptyString.

Fixpoint print_chars (s : string) : string :=
  match s with
  | EmptyString => EmptyString
  | String c rest => print_char c ++ print_chars rest
  end.

Definition print_string (s : string) : string :=
  String (ascii_of_nat 34) (print_chars s ++ String (ascii_of_nat 34) EmptyString).

Fixpoint print (v : json) : string :=
  match v with
  | JNull => "null"
  | JBool true => "true"
  | JBool false => "false"
  | JNum n => pretty n
  | JStr s => print_string s
  | JArr items =>
    "[" ++ (fix elements (l : list json) : string :=
              match l with
              | [] => ""
              | x :: rest =>
                print x ++ match rest with [] => "" | _ => "," ++ elements rest end
              end) items ++ "]"
  | JObj fields =>
    "{" ++ (fix members (l : list (string * json)) : string :=
              match l with
              | [] => ""
              | (k, x) :: rest =>
                print_string k ++ ":" ++ print x
                ++ match rest with [] => "" | _ => "," ++ members rest end
              end) fields ++ "}"
  end.

(** A reference [Number(s) > 0] for strings that hold an integer literal;
    any other string counts as not positive. *)
Definition number_positive (s : string) : bool :=
  match natural (skip_ws s) with
  | Some (n, rest) => match skip_ws rest with EmptyString => 0 <? n | _ => false end
  | None => false
  end.

End RefJSON.

(** A reference for the conversion of a [Buffer] to text
    ([buffer.toString()], UTF-8): well-formed sequences are kept, and each
    maximal ill-formed part becomes U+FFFD, as the decoder of the Encoding
    standard does.  Texts and buffers are both strings of bytes here. *)
Module RefText.

(** U+FFFD in UTF-8 *)
Definition replacement : string :=
  String (ascii_of_nat 239) (String (ascii_of_nat 191) (String (ascii_of_nat 189) "")).

(** For a lead byte: how many bytes follow, and the range of the next one. *)
Definition lead (n : nat) : option (nat * nat * nat) :=
  if Nat.leb 194 n && Nat.leb n 223 then Some (1, 128, 191)%nat
  else if Nat.eqb n 224 then Some (2, 160, 191)%nat
  else if Nat.eqb n 237 then Some (2, 128, 159)%nat
  else if Nat.leb 225 n && Nat.leb n 239 then Some (2, 128, 191)%nat
  else if Nat.eqb n 240 then Some (3, 144, 191)%nat
  else if Nat.eqb n 244 then Some (3, 128, 143)%nat
  else if Nat.leb 241 n && Nat.leb n 243 then Some (3, 128, 191)%nat
  else None.

(** [pending] holds the bytes of the sequence under way, with the number
    of bytes still to come and the range of the next. *)
Fixpoint decode_from (pending : option (string * nat * nat * nat)) (s : string) : string :=
  match s with
  | EmptyString => match pending with None => "" | Some _ => replacement end
  | String b rest =>
    let n := nat_of_ascii b in
    let afresh :=
      if Nat.ltb n 128 then String b (decode_from None rest)
      else match lead n with
           | Some (more, low, high) =>
             decode_from (Some (String b "", more, low, high)) rest
           | None => replacement ++ decode_from None rest
           end in
    match pending with
    | None => afresh
    | Some (seen, more, low, high) =>
      if Nat.leb low n && Nat.leb n high then
        match more with
        | S (S others) => decode_from (Some (seen ++ String b "", S others, 128, 191)%nat) rest
        | _ => seen ++ String b (decode_from None rest)
        end
      else replacement ++ afresh
    end
  end.

Definition decode (buffer : string) : string := decode_from None buffer.

End RefText.

(** Concrete JSON text is written with apostrophes for its double quotes:
    [quoted "{'a':1}"] is the text [{"a":1}]. *)
Fixpoint quoted (s : string) : string :=
  match s with
  | EmptyString => EmptyString
  | String c rest =>
    String (if byte_is c 39 then ascii_of_nat 34 else c) (quoted rest)
  end.

(** ** State and exceptions *)

(** A computation over mutable state [S] that may throw; the state reached
    when it throws is kept, as assignments made before a [throw] are. *)
Definition M (S A : Type) : Type := S -> js A * S.

Definition ret {S A} (a : A) : M S A := fun s => (Ok a, s).

Definition bind {S A B} (m : M S A) (k : A -> M S B) : M S B :=
  fun s =>
    match m s with
    | (Ok a, s') => k a s'
    | (Throw e, s') => (Throw e, s')
    end.

Definition throw {S A} (e : exn) : M S A := fun s => (Throw e, s).

Definition lift {S A} (m : js A) : M S A := fun s => (m, s).

Definition read {S} : M S S := fun s => (Ok s, s).

Definition modify {S} (f : S -> S) : M S unit := fun s => (Ok tt, f s).

(** [try { m } catch (e) { handler(e) }] *)
Definition try_catch {S A} (m : M S A) (handler : exn -> M S A) : M S A :=
  fun s =>
    match m s with
    | (Ok a, s') => (Ok a, s')
    | (Throw e, s') => handler e s'
    end.

Definition when {S} (c : bool) (m : M S unit) : M S unit :=
  if c then m else ret tt.

(** [for (const x of l) body(x)] *)
Fixpoint for_each {S A} (l : list A) (body : A -> M S unit) : M S unit :=
  match l with
  | [] => ret tt
  | x :: rest => bind (body x) (fun _ => for_each rest body)
  end.

#[global] Instance js_ret : MRet js := @Ok.
#[global] Instance js_mbind : MBind js := fun A B f m => js_bind m f.
#[global] Instance M_ret {S} : MRet (M S) := @ret S.
#[global] Instance M_mbind {S} : MBind (M S) := fun A B f m => bind m f.

(** ** The agents *)

Inductive agent : Type := Claude | Codex | Gemini.

(** The provider string of a request, and the keys of [nameMap]. *)
Definition agent_key (a : agent) : string :=
  match a with
  | Claude => "claude"
  | Codex => "codex"
  | Gemini => "gemini"
  end.

(** The name used in log and error messages: "Claude timed out ...". *)
Definition agent_label (a : agent) : string :=
  match a with
  | Claude => "Claude"
  | Codex => "Codex"
  | Gemini => "Gemini"
  end.

(** The local variables of [parseCodexJSONL]. *)
Record parsed : Type := Parsed {
  p_sessionId : json;
  p_result : json;
  p_tokenUsage : json;
  p_aborted : bool
}.

Definition parsed_start : parsed :=
  {| p_sessionId := JNull; p_result := JStr ""; p_tokenUsage := JNull; p_aborted := false |}.

Definition set_sessionId (v : json) (p : parsed) : parsed :=
  {| p_sessionId := v; p_result := p_result p; p_tokenUsage := p_tokenUsage p; p_aborted := p_aborted p |}.
Definition set_result (v : json) (p : parsed) : parsed :=
  {| p_sessionId := p_sessionId p; p_result := v; p_tokenUsage := p_tokenUsage p; p_aborted := p_aborted p |}.
Definition set_tokenUsage (v : json) (p : parsed) : parsed :=
  {| p_sessionId := p_sessionId p; p_result := p_result p; p_tokenUsage := v; p_aborted := p_aborted p |}.
Definition set_aborted (p : parsed) : parsed :=
  {| p_sessionId := p_sessionId p; p_result := p_result p; p_tokenUsage := p_tokenUsage p; p_aborted := true |}.

(** A truthy value is never [undefined]. *)
Definition the (v : value) : json :=
  match v with
  | Some j => j
  | None => JNull
  end.

(** ** formatDiscussionPrompt *)

(** An entry of the transcript, as the function reads it: the moderator's
    entries carry [role: "user"], an agent's entry names the agent in
    [provider]. *)
Module Transcript.
Record message : Type := Message {
  role : option string;
  provider : option string;
  content : string
}.
End Transcript.
Import Transcript (message, Message).

Definition nameMap : list (string * string) :=
  [("claude", "Claude"); ("codex", "Codex"); ("gemini", "Gemini")].

Fixpoint own (k : string) (entries : list (string * string)) : option string :=
  match entries with
  | [] => None
  | (k', v) :: rest => if String.eqb k' k then Some v else own k rest
  end.

(** [nameMap] is an ordinary object, so [nameMap[k]] also finds the
    members of [Object.prototype]; each is kept as the text Node prints
    for it in a template literal. *)
Definition prototype_methods : list string :=
  ["__defineGetter__"; "__defineSetter__"; "hasOwnProperty"; "__lookupGetter__";
   "__lookupSetter__"; "isPrototypeOf"; "propertyIsEnumerable"; "toString";
   "valueOf"; "toLocaleString"].

Definition native (name : string) : string :=
  "function " ++ name ++ "() { [native code] }".

Definition inherited (k : string) : option string :=
  if String.eqb k "__proto__" then Some "[object Object]"
  else if String.eqb k "constructor" then Some (native "Object")
  else if existsb (String.eqb k) prototype_methods then Some (native k)
  else None.

(** [nameMap[k]], [None] when it is [undefined] *)
Definition nameMap_get (k : string) : option string :=
  match own k nameMap with
  | Some name => Some name
  | None => inherited k
  end.

(** [nameMap[k] || k] *)
Definition display (k : string) : string :=
  match nameMap_get k with
  | Some name => name
  | None => k
  end.

(** [msg.provider && nameMap[msg.provider]] *)
Definition speaker (msg : message) : option string :=
  match Transcript.provider msg with
  | Some p => if nonempty p then nameMap_get p else None
  | None => None
  end.

(** [seen.add(name)]: a [Set] keeps each member once, in insertion order. *)
Definition add (name : string) (seen : list string) : list string :=
  if existsb (String.eqb name) seen then seen else (seen ++ [name])%list.

(** The names of the agents other than the target that speak in the
    transcript. *)
Definition seen_in (history : list message) (targetProvider : string) : list string :=
  fold_left
    (fun seen msg =>
       match Transcript.provider msg, speaker msg with
       | Some p, Some name => if negb (String.eqb p targetProvider) then add name seen else seen
       | _, _ => seen
       end)
    history [].

Definition otherNames (history : list message) (targetProvider : string)
    (participatingProviders : option (list string)) : list string :=
  match participatingProviders with
  | Some (p :: ps) =>
    map display (List.filter (fun q => negb (String.eqb q targetProvider)) (p :: ps))
  | _ =>
    match seen_in history targetProvider with
    | [] => map snd (List.filter (fun kv => negb (String.eqb (fst kv) targetProvider)) nameMap)
    | names => names
    end
  end.

Definition render (msg : message) : string :=
  if match Transcript.role msg with Some r => String.eqb r "user" | None => false end
  then "[Human]: " ++ Transcript.content msg ++ String newline (String newline "")
  else match speaker msg with
       | Some name => "[" ++ name ++ "]: " ++ Transcript.content msg
                      ++ String newline (String newline "")
       | None => ""
       end.

Definition transcript (history : list message) : string :=
  fold_left (fun acc msg => acc ++ render msg) history "".

Definition formatDiscussionPrompt (history : list message) (targetProvider : string)
    (participatingProviders : option (list string)) : string :=
  let providerName := display targetProvider in
  let othersStr := join " and " (otherNames history targetProvider participatingProviders) in
  "You are " ++ providerName ++ " in a roundtable discussion with " ++ othersStr
  ++ " and a human moderator." ++ String newline (String newline "")
  ++ "Here is the full transcript so far:" ++ String newline (String newline "")
  ++ transcript history
  ++ "Now respond as " ++ providerName
  ++ ". Briefly summarize or quote the key points from " ++ othersStr
  ++ " that you are addressing, then give your response. "
  ++ "Engage directly with what each of the others said — agree, disagree, or build on their points. Do not prefix your response with your name.".

(** *** The rendering rule, as the specification words it *)

(** An entry is plain when its provider does not name a member of
    [Object.prototype]. *)
Definition plain (msg : message) : Prop :=
  match Transcript.provider msg with
  | Some p => inherited p = None
  | None => True
  end.

Definition blank_line : string := String newline (String newline "").

(** The display name of one of the three agents. *)
Definition known (p : string) : option string :=
  if String.eqb "claude" p then Some "Claude"
  else if String.eqb "codex" p then Some "Codex"
  else if String.eqb "gemini" p then Some "Gemini"
  else None.

Definition is_user (msg : message) : bool :=
  match Transcript.role msg with
  | Some r => String.eqb r "user"
  | None => false
  end.

(** The text of one entry, as the rendering rule words it: the moderator's
    entry, then an entry of one of the three agents, nothing otherwise. *)
Definition entry_text (msg : message) : string :=
  if is_user msg then "[Human]: " ++ Transcript.content msg ++ blank_line
  else match Transcript.provider msg with
       | Some p =>
         match known p with
         | Some name => "[" ++ name ++ "]: " ++ Transcript.content msg ++ blank_line
         | None => ""
         end
       | None => ""
       end.

Definition concat_text (l : list string) : string := fold_right String.append "" l.

(** The transcript of the claim, in the encoding the function reads. *)
Definition roundtable : list message :=
  [ Message (Some "user") None "Topic?";
    Message None (Some "claude") "X";
    Message None (Some "gemini") "Y" ].

(** The same transcript as the specification writes it: the role carries
    "moderator" or the agent, and there is no provider. *)
Definition roundtable_by_role : list message :=
  [ Message (Some "moderator") None "Topic?";
    Message (Some "claude") None "X";
    Message (Some "gemini") None "Y" ].

Section Runtime.

(** [JSON.parse]; [None] is its [SyntaxError]. *)
Variable JSON_parse : string -> option json.

Definition parse_json (s : string) : js value :=
  match JSON_parse s with
  | Some v => Ok (Some v)
  | None => Throw (Error "SyntaxError")
  end.

(** *** parseCodexJSONL *)

(** [stdout.trim().split("\n").filter(Boolean)] *)
Definition jsonl_lines (stdout : string) : list string :=
  List.filter nonempty (split_lines (trim stdout)).

(** The body of the [try] block, for one line. *)
Definition codex_line (line : string) : M parsed unit :=
  event ← lift (parse_json line);
  ty ← lift (get event "type");
  (if is_string ty "thread.started" then
     thread_id ← lift (get event "thread_id");
     when (truthy thread_id) (modify (set_sessionId (the thread_id)))
   else ret tt);;
  ty ← lift (get event "type");
  (if is_string ty "item.completed" then
     item ← lift (get event "item");
     if truthy item then
       item_type ← lift (get item "type");
       if is_string item_type "agent_message" then
         item_text ← lift (get item "text");
         modify (set_result (the (js_or item_text (Some (JStr "")))))
       else ret tt
     else ret tt
   else ret tt);;
  ty ← lift (get event "type");
  (if is_string ty "turn.completed" then
     usage ← lift (get event "usage");
     when (truthy usage) (modify (set_tokenUsage (the usage)))
   else ret tt);;
  ty ← lift (get event "type");
  when (is_string ty "turn.aborted") (modify set_aborted).

Definition parseCodexJSONL (stdout : string) : js parsed :=
  let run :=
    for_each (jsonl_lines stdout)
      (fun line => try_catch (codex_line line) (fun _ => ret tt)) in
  match run parsed_start with
  | (Ok _, p) => Ok p
  | (Throw e, _) => Throw e
  end.

(** *** The adapters: callClaude, callGemini, callCodex

    Each adapter spawns its process, appends every chunk of the two output
    streams to [stdout] and [stderr], arms a timer, and settles its promise
    from the [close] handler, the [error] handler or the timer.  Calls to
    [log] only record telemetry; what matters of them is that evaluating
    their arguments can throw. *)

Inductive settlement : Type :=
| Resolve (result : json)
| Reject (e : exn).

Record options : Type := Options {
  opt_sessionId : value;
  opt_model : value;
  opt_systemPrompt : value
}.

Definition flag (name : string) (v : value) : list json :=
  if truthy v then [JStr name; the v] else [].

(** The argument vector handed to [spawn]. *)
Definition spawn_args (a : agent) (prompt : json) (o : options) : list json :=
  match a with
  | Claude =>
    [JStr "-p"; prompt; JStr "--output-format"; JStr "json"]
    ++ flag "--resume" (opt_sessionId o)
    ++ flag "--model" (opt_model o)
    ++ flag "--system-prompt" (opt_systemPrompt o)
  | Gemini =>
    [JStr "-o"; JStr "json"] ++ flag "--resume" (opt_sessionId o) ++ [prompt; JStr "--yolo"]
  | Codex =>
    (if truthy (opt_sessionId o)
     then [JStr "exec"; JStr "resume"; the (opt_sessionId o); prompt]
     else [JStr "exec"; prompt])
    ++ [JStr "--json"; JStr "--full-auto"; JStr "--skip-git-repo-check"]
    ++ flag "--model" (opt_model o)
  end%list.

(** The [try] block of [callClaude]'s close handler. *)
Definition claude_try (stdout : string) : js json :=
  parsed ← parse_json stdout;
  result ← get parsed "result";
  _ ← slice (js_or result (Some (JStr ""))) 100;
  _ ← get parsed "duration_ms";
  _ ← get parsed "total_cost_usd";
  _ ← get parsed "session_id";
  mret (the parsed).

(** One round of the loop over [Object.values(parsed.stats.models)]; the
    state is [(tokenInput, tokenOutput)]. *)
Definition gemini_model (modelData : json) : M (json * json) unit :=
  tokens ← lift (get (Some modelData) "tokens");
  if truthy tokens then
    tin ← lift (get tokens "input");
    modify (fun io => (js_add (fst io) (the (js_or tin (Some (JNum 0)))), snd io));;
    candidates ← lift (get tokens "candidates");
    tout ← (if truthy candidates then ret candidates else lift (get tokens "output"));
    modify (fun io => (fst io, js_add (snd io) (the (js_or tout (Some (JNum 0))))))
  else ret tt.

(** The [try] block of [callGemini]'s close handler. *)
Definition gemini_try (stdout : string) : js json :=
  parsed ← parse_json stdout;
  stats ← get parsed "stats";
  models ← (if truthy stats then get stats "models" else mret stats);
  counts ← (if truthy models
            then match for_each (object_values (the models)) gemini_model (JNum 0, JNum 0) with
                 | (Ok _, io) => Ok io
                 | (Throw e, _) => Throw e
                 end
            else mret (JNum 0, JNum 0));
  response ← get parsed "response";
  _ ← slice (js_or response (Some (JStr ""))) 100;
  session_id ← get parsed "session_id";
  mret (object [("result", response);
                ("session_id", session_id);
                ("token_usage", Some (JObj [("input", fst counts); ("output", snd counts)]))]).

(** The [try] block of [callCodex]'s close handler. *)
Definition codex_try (stdout : string) : js json :=
  parsed ← parseCodexJSONL stdout;
  _ ← slice (js_or (Some (p_result parsed)) (Some (JStr ""))) 100;
  mret (object [("result", Some (p_result parsed));
                ("session_id", Some (p_sessionId parsed));
                ("token_usage", Some (p_tokenUsage parsed))]).

Definition structured (a : agent) (stdout : string) : js json :=
  match a with
  | Claude => claude_try stdout
  | Gemini => gemini_try stdout
  | Codex => codex_try stdout
  end.

(** The exit code of the [close] event: [None] is [null], the code of a
    process ended by a signal. *)
Definition code_text (code : option Z) : string :=
  match code with
  | Some n => pretty n
  | None => "null"
  end.

Definition exited_zero (code : option Z) : bool :=
  match code with
  | Some n => n =? 0
  | None => false
  end.

(** [catch { resolve({ result: stdout.trim() }) }] *)
Definition raw_result (stdout : string) : json :=
  JObj [("result", JStr (trim stdout))].

(** The [close] handler, the same in the three adapters up to the name. *)
Definition on_close (a : agent) (code : option Z) (stdout stderr : string) : settlement :=
  if negb (exited_zero code) then
    Reject (Error (if nonempty stderr then stderr
                   else agent_key a ++ " exited with code " ++ code_text code))
  else
    match structured a stdout with
    | Ok parsed => Resolve parsed
    | Throw _ => Resolve (raw_result stdout)
    end.

(** What the process does: chunks on its two streams, its [close] event,
    or the [error] event of a failed spawn.  A chunk is here what the
    listener appends: the text of its [Buffer]. *)
Inductive process_event : Type :=
| Stdout (chunk : string)
| Stderr (chunk : string)
| Close (code : option Z)
| SpawnError (e : exn).

(** What reaches the adapter: the process, and the timer armed at spawn. *)
Inductive event : Type :=
| Process (e : process_event)
| TimerFired.

Inductive signal : Type := SIGKILL | SIGTERM.

(** The variables of one invocation: the captured streams, whether the
    timer is still armed, the promise (settled once, with the time), and
    the signals sent to the process, latest first. *)
Record invocation : Type := Invocation {
  stdout : string;
  stderr : string;
  timer : bool;
  promise : option (Z * settlement);
  killed : list (Z * signal)
}.

Definition spawned : invocation :=
  {| stdout := ""; stderr := ""; timer := true; promise := None; killed := [] |}.

(** [resolve] and [reject] are ignored once the promise is settled. *)
Definition settle (t : Z) (s : settlement) (i : invocation) : invocation :=
  {| stdout := stdout i; stderr := stderr i; timer := timer i;
     promise := match promise i with Some p => Some p | None => Some (t, s) end;
     killed := killed i |}.

Definition clearTimeout (i : invocation) : invocation :=
  {| stdout := stdout i; stderr := stderr i; timer := false;
     promise := promise i; killed := killed i |}.

Definition timeout_ms : Z := 120000.

Definition timeout_error (a : agent) : exn :=
  Error (agent_label a ++ " timed out after 120s").

(** One event at time [t] (milliseconds since the spawn). *)
Definition step (a : agent) (i : invocation) (te : Z * event) : invocation :=
  let '(t, e) := te in
  match e with
  | Process (Stdout chunk) =>
    {| stdout := stdout i ++ chunk; stderr := stderr i; timer := timer i;
       promise := promise i; killed := killed i |}
  | Process (Stderr chunk) =>
    {| stdout := stdout i; stderr := stderr i ++ chunk; timer := timer i;
       promise := promise i; killed := killed i |}
  | TimerFired =>
    if timer i then
      settle t (Reject (timeout_error a))
        {| stdout := stdout i; stderr := stderr i; timer := false;
           promise := promise i; killed := (t, SIGKILL) :: killed i |}
    else i
  | Process (Close code) =>
    settle t (on_close a code (stdout i) (stderr i)) (clearTimeout i)
  | Process (SpawnError err) =>
    settle t (Reject err) (clearTimeout i)
  end.

(** The event loop: what the process does before the bound, then the
    timer callback at [timeout_ms] (dropped by [step] when the timer was
    cleared), then what the process does later. *)
Definition before_bound (te : Z * process_event) : bool := fst te <? timeout_ms.

Definition delivered (te : Z * process_event) : Z * event := (fst te, Process (snd te)).

Definition schedule (process : list (Z * process_event)) : list (Z * event) :=
  (map delivered (List.filter before_bound process)
   ++ (timeout_ms, TimerFired)
   :: map delivered (List.filter (fun te => negb (before_bound te)) process))%list.

Definition invoke (a : agent) (process : list (Z * process_event)) : invocation :=
  fold_left (step a) (schedule process) spawned.

(** The three adapters, each run against a behaviour of its process. *)
Definition callClaude : list (Z * process_event) -> invocation := invoke Claude.
Definition callGemini : list (Z * process_event) -> invocation := invoke Gemini.
Definition callCodex : list (Z * process_event) -> invocation := invoke Codex.

(** Whether the process ends (closes or fails to spawn) before the bound. *)
Definition ends (te : Z * process_event) : bool :=
  match snd te with
  | Close _ | SpawnError _ => true
  | _ => false
  end.

(** *** extractTokens *)

Record tokens : Type := Tokens { input : json; output : json }.

Definition zero : value := Some (JNum 0).

Definition extractTokens (result : json) (provider : agent) : js tokens :=
  usage ← (match provider with Codex => get (Some result) "token_usage" | _ => mret None end);
  if truthy usage then
    a ← get usage "input_tokens";
    b ← (if truthy a then mret a else get usage "total_input_tokens");
    c ← get usage "output_tokens";
    d ← (if truthy c then mret c else get usage "total_output_tokens");
    mret {| input := the (js_or b zero); output := the (js_or d zero) |}
  else
  usage ← (match provider with Gemini => get (Some result) "token_usage" | _ => mret None end);
  if truthy usage then
    a ← get usage "input";
    b ← get usage "output";
    mret {| input := the (js_or a zero); output := the (js_or b zero) |}
  else
  usage ← (match provider with Claude => get (Some result) "usage" | _ => mret None end);
  if truthy usage then
    a ← get usage "input_tokens";
    b ← get usage "cache_read_input_tokens";
    c ← get usage "cache_creation_input_tokens";
    d ← get usage "output_tokens";
    mret {| input := js_add (js_add (the (js_or a zero)) (the (js_or b zero))) (the (js_or c zero));
            output := the (js_or d zero) |}
  else mret {| input := JNum 0; output := JNum 0 |}.

(** *** The session store and the request handlers *)

(** An entry of [sessions]; [provider] is missing in entries written
    before the field existed (the [/sessions] listing shows those as
    "claude"). *)
Record conv : Type := Conv {
  sessionId : value;
  turns : Z;
  created : string;
  provider : value
}.

(** What a handler reads from its host: [Date.now()], the ISO text of
    [new Date()], and whether the two optional binaries exist. *)
Record host : Type := Host {
  now : Z;
  iso : string;
  codex_found : bool;
  gemini_found : bool
}.

Definition CODEX : string := "/opt/homebrew/bin/codex".
Definition GEMINI : string := "/opt/homebrew/bin/gemini".

Definition DEFAULT_SYSTEM_PROMPT : string :=
  "You are Claude, a helpful general-purpose AI assistant made by Anthropic. You help with any topic: writing, analysis, math, science, creative work, advice, current events, and general knowledge. You think deeply, reason carefully, and give thorough answers. You are not limited to coding tasks.".

(** [sendJSON(res, status, body)]; [SendError status e] sends
    [{ error: e.message }]. *)
Inductive reply : Type :=
| Send (status : Z) (body : json)
| SendError (status : Z) (e : exn).

(** [readBody]: rejects when the body is not JSON. *)
Definition readBody (data : string) : js value :=
  match JSON_parse data with
  | Some v => Ok (Some v)
  | None => Throw (Error "Invalid JSON body")
  end.

Definition agent_of (v : value) : option agent :=
  if is_string v "claude" then Some Claude
  else if is_string v "codex" then Some Codex
  else if is_string v "gemini" then Some Gemini
  else None.

(** The key a value is looked up under in [sessions]: the keys are
    strings, so only a string can be found. *)
Definition has (ss : gmap string conv) (v : value) : bool :=
  match v with
  | Some (JStr id) => bool_decide (is_Some (ss !! id))
  | _ => false
  end.

Definition new_id (h : host) : string := "conv_" ++ pretty (now h).

Definition fresh (h : host) (p : agent) : conv :=
  {| sessionId := Some JNull; turns := 0; created := iso h;
     provider := Some (JStr (agent_key p)) |}.

(** POST /new *)
Definition new_conversation (h : host) (data : string) : M (gmap string conv) reply :=
  let requested :=
    match (body ← readBody data; get body "provider") with
    | Ok p => p
    | Throw _ => None
    end in
  let p := if is_string requested "codex" then Codex
           else if is_string requested "gemini" then Gemini
           else Claude in
  modify (insert (new_id h) (fresh h p));;
  ret (Send 200 (JObj [("conversationId", JStr (new_id h));
                       ("provider", JStr (agent_key p))])).

(** An adapter call the handler awaits. *)
Record call : Type := Call {
  callee : agent;
  prompt : json;
  given : options;
  conversation : string
}.

(** POST /ask up to its [await]: either the reply is sent without any
    adapter call, or an adapter is called. *)
Inductive phase : Type :=
| Done (r : reply)
| Await (c : call).

Definition set_provider (p : agent) (c : conv) : conv :=
  {| sessionId := sessionId c; turns := turns c; created := created c;
     provider := Some (JStr (agent_key p)) |}.

Definition missing_binary (h : host) (p : agent) : option string :=
  match p with
  | Codex => if codex_found h then None else Some ("Codex CLI not found at " ++ CODEX)
  | Gemini => if gemini_found h then None else Some ("Gemini CLI not found at " ++ GEMINI)
  | Claude => None
  end.

Definition options_for (p : agent) (body : value) (c : conv) : js options :=
  match p with
  | Codex =>
    model ← get body "model";
    mret {| opt_sessionId := sessionId c; opt_model := model; opt_systemPrompt := None |}
  | Gemini =>
    mret {| opt_sessionId := sessionId c; opt_model := None; opt_systemPrompt := None |}
  | Claude =>
    model ← get body "model";
    systemPrompt ← get body "systemPrompt";
    mret {| opt_sessionId := sessionId c; opt_model := model;
            opt_systemPrompt := js_or systemPrompt (Some (JStr DEFAULT_SYSTEM_PROMPT)) |}
  end.

Definition mismatch_error (c : conv) : exn :=
  Error ("Cannot switch provider mid-conversation. This conversation uses "
         ++ text (provider c) ++ ".").

Definition ask_begin (h : host) (data : string) : M (gmap string conv) phase :=
  try_catch
    (body ← lift (readBody data);
     prompt ← lift (get body "prompt");
     if negb (truthy prompt) then
       ret (Done (SendError 400 (Error "Missing 'prompt' field")))
     else
     requested ← lift (get body "provider");
     match agent_of (js_or requested (Some (JStr "claude"))) with
     | None =>
       ret (Done (SendError 400 (Error "Invalid provider. Must be 'claude', 'codex', or 'gemini'")))
     | Some p =>
       match missing_binary h p with
       | Some message => ret (Done (SendError 400 (Error message)))
       | None =>
         asked ← lift (get body "conversationId");
         ss ← read;
         convId ← (if negb (truthy asked) || negb (has ss asked)
                   then modify (insert (new_id h) (fresh h p));; ret (new_id h)
                   else ret (text asked));
         ss ← read;
         match ss !! convId with
         | None => throw TypeError
         | Some c =>
           if (0 <? turns c) && truthy (provider c)
              && negb (is_string (provider c) (agent_key p))
           then ret (Done (SendError 400 (mismatch_error c)))
           else
             when (negb (truthy (provider c))) (modify (alter (set_provider p) convId));;
             _ ← lift (slice prompt 80);
             o ← lift (options_for p body c);
             ret (Await {| callee := p; prompt := the prompt; given := o;
                           conversation := convId |})
         end
       end
     end)
    (fun e => ret (Done (SendError 500 e))).

Definition record_turn (session_id : value) (c : conv) : conv :=
  {| sessionId := if truthy session_id then session_id else sessionId c;
     turns := turns c + 1; created := created c; provider := provider c |}.

(** POST /ask from its [await] on: [c] is the call that was made and [s]
    how it settled.  [conv] is the object stored under the conversation
    id; it is updated in place. *)
Definition ask_end (c : call) (s : settlement) : M (gmap string conv) reply :=
  try_catch
    (result ← (match s with
               | Resolve v => ret v
               | Reject e => throw e
               end);
     session_id ← lift (get (Some result) "session_id");
     modify (alter (record_turn session_id) (conversation c));;
     ss ← read;
     match ss !! conversation c with
     | None => throw TypeError
     | Some cv =>
       used ← lift (extractTokens result (callee c));
       text_result ← lift (get (Some result) "result");
       duration ← lift (get (Some result) "duration_ms");
       ret (Send 200 (object [("result", text_result);
                              ("conversationId", Some (JStr (conversation c)));
                              ("provider", Some (JStr (agent_key (callee c))));
                              ("turn", Some (JNum (turns cv)));
                              ("durationMs", duration);
                              ("tokens", Some (JObj [("input", input used);
                                                     ("output", output used)]))]))
     end)
    (fun e => ret (SendError 500 e)).

(** The whole handler, given how the awaited adapter call settles.  The
    second component is the adapter call that was made, if any. *)
Definition ask (h : host) (adapter : call -> settlement) (data : string)
  : M (gmap string conv) (reply * option call) :=
  ph ← ask_begin h data;
  match ph with
  | Done r => ret (r, None)
  | Await c => r ← ask_end c (adapter c); ret (r, Some c)
  end.

(** ** The line protocol, as the specification words it

    The events of an output are its non-empty lines that parse, malformed
    lines being skipped.  A thread-started event with a thread id supplies
    the session id, an agent-message completion supplies the result text,
    a turn completion with usage supplies the usage, and a turn-aborted
    event raises the flag; of several events of one kind the last counts. *)

(** An own property of an object, [undefined] on anything else. *)
Definition field (v : json) (k : string) : value :=
  match v with
  | JObj fields => assoc k fields
  | _ => None
  end.

Definition events (out : string) : list json := omap JSON_parse (jsonl_lines out).

Definition thread_started (ev : json) : option json :=
  if is_string (field ev "type") "thread.started" && truthy (field ev "thread_id")
  then field ev "thread_id"
  else None.

Definition agent_message (ev : json) : option json :=
  if is_string (field ev "type") "item.completed" then
    match field ev "item" with
    | Some item =>
      if is_string (field item "type") "agent_message"
      then Some (the (js_or (field item "text") (Some (JStr ""))))
      else None
    | None => None
    end
  else None.

Definition turn_completed (ev : json) : option json :=
  if is_string (field ev "type") "turn.completed" && truthy (field ev "usage")
  then field ev "usage"
  else None.

Definition turn_aborted (ev : json) : bool :=
  is_string (field ev "type") "turn.aborted".

(** The last of [found], [default] when there is none. *)
Definition is_Some_b {A} (o : option A) : bool :=
  match o with Some _ => true | None => false end.

Definition latest {A} (found : list A) (default : A) : A := List.last found default.

Definition parsed_spec (out : string) : parsed :=
  {| p_sessionId := latest (omap thread_started (events out)) JNull;
     p_result := latest (omap agent_message (events out)) (JStr "");
     p_tokenUsage := latest (omap turn_completed (events out)) JNull;
     p_aborted := existsb turn_aborted (events out) |}.

(** An event that sets one of the variables. *)
Definition matching (ev : json) : bool :=
  is_Some_b (thread_started ev) || is_Some_b (agent_message ev)
  || is_Some_b (turn_completed ev) || turn_aborted ev.

(** What one event does to the variables of [parseCodexJSONL]. *)
Definition codex_event (p : parsed) (ev : json) : parsed :=
  let p1 := match thread_started ev with Some t => set_sessionId t p | None => p end in
  let p2 := match agent_message ev with Some r => set_result r p1 | None => p1 end in
  let p3 := match turn_completed ev with Some u => set_tokenUsage u p2 | None => p2 end in
  if turn_aborted ev then set_aborted p3 else p3.

(** [v.slice] is callable *)
Definition sliceable (v : json) : bool :=
  match the (js_or (Some v) (Some (JStr ""))) with
  | JStr _ | JArr _ => true
  | _ => false
  end.

(** What [callCodex] resolves with when its [try] block completes. *)
Definition codex_result (p : parsed) : json :=
  object [("result", Some (p_result p));
          ("session_id", Some (p_sessionId p));
          ("token_usage", Some (p_tokenUsage p))].

(** The message of a rejected close. *)
Definition exit_message (a : agent) (code : option Z) (err : string) : string :=
  if nonempty err then err
  else agent_key a ++ " exited with code " ++ code_text code.

(** What an update of the store leaves alone: the turn count and the
    session id of an entry, and its provider once it has one. *)
Definition same_turn_and_token (before after : conv) : Prop :=
  turns after = turns before
  /\ sessionId after = sessionId before
  /\ (truthy (provider before) = true -> provider after = provider before).

(** ** Concrete inputs *)

Definition line_break : string := String newline "".

(** The four events of the line-delimited example, with a line that is not
    JSON and a [null] line in between. *)
Definition four_events : string :=
  quoted "{'type':'thread.started','thread_id':'t1'}" ++ line_break
  ++ "warning: not json" ++ line_break
  ++ quoted "{'type':'item.completed','item':{'type':'agent_message','text':'A'}}" ++ line_break
  ++ "null" ++ line_break
  ++ quoted "{'type':'item.completed','item':{'type':'agent_message','text':'B'}}" ++ line_break
  ++ quoted "{'type':'turn.completed','usage':{'input_tokens':3,'output_tokens':4}}" ++ line_break.

(** A completed agent message whose text is a number. *)
Definition numeric_message : string :=
  quoted "{'type':'item.completed','item':{'type':'agent_message','text':5}}".

Definition host_all : host :=
  {| now := 1700000000000; iso := "2023-11-14T22:13:20.000Z";
     codex_found := true; gemini_found := true |}.

Definition host_no_codex : host :=
  {| now := 1700000000000; iso := "2023-11-14T22:13:20.000Z";
     codex_found := false; gemini_found := true |}.

Definition pinned : conv :=
  {| sessionId := Some (JStr "s1"); turns := 1;
     created := "2023-11-14T22:00:00.000Z"; provider := Some (JStr "claude") |}.

Definition pinned_store : gmap string conv := {[ "conv_1" := pinned ]}.

Definition ask_codex_on_conv_1 : string :=
  quoted "{'prompt':'hi','conversationId':'conv_1','provider':'codex'}".

Definition never_called (c : call) : settlement := Reject (Error "not called").

Definition times_out (c : call) : settlement :=
  Reject (Error (agent_label (callee c) ++ " timed out after 120s")).

Definition claude_call_conv_1 : call :=
  {| callee := Claude; prompt := JStr "hi";
     given := {| opt_sessionId := Some (JStr "s1"); opt_model := None;
                 opt_systemPrompt := Some (JStr DEFAULT_SYSTEM_PROMPT) |};
     conversation := "conv_1" |}.

Definition ask_claude_on_conv_1 : string :=
  quoted "{'prompt':'hi','conversationId':'conv_1'}".

Definition host_later : host :=
  {| now := 1700000060000; iso := "2023-11-14T22:14:20.000Z";
     codex_found := true; gemini_found := true |}.

Definition codex_answers (c : call) : settlement :=
  Resolve (JObj [("result", JStr "ok"); ("session_id", JStr "thread-1");
                 ("token_usage", JNull)]).

Definition ask_on_new (agent_name : string) : string :=
  quoted ("{'prompt':'hi','conversationId':'conv_1700000000000','provider':'"
          ++ agent_name ++ "'}").

(** The store after POST /new with an empty object, and after a first
    /ask for codex on that conversation. *)
Definition store_after_new : gmap string conv :=
  {[ "conv_1700000000000" := fresh host_all Claude ]}.

Definition store_after_first_turn : gmap string conv :=
  {[ "conv_1700000000000" :=
       {| sessionId := Some (JStr "thread-1"); turns := 1;
          created := "2023-11-14T22:13:20.000Z"; provider := Some (JStr "claude") |} ]}.

(** ** What a process has written *)

(** The chunks a behaviour writes on standard output, joined in order. *)
Fixpoint written_out (l : list (Z * process_event)) : string :=
  match l with
  | [] => ""
  | (_, Stdout chunk) :: rest => chunk ++ written_out rest
  | _ :: rest => written_out rest
  end.

Fixpoint written_err (l : list (Z * process_event)) : string :=
  match l with
  | [] => ""
  | (_, Stderr chunk) :: rest => chunk ++ written_err rest
  | _ :: rest => written_err rest
  end.

(** A chunk of output that arrives before the bound. *)
Definition early_chunk (te : Z * process_event) : Prop :=
  before_bound te = true /\ ends te = false.


(** ** Usage counters read as numbers *)

(** A counter that is a number, [0] when it is missing. *)
Definition counter (v : value) : option Z :=
  match v with
  | None => Some 0
  | Some (JNum n) => Some n
  | Some _ => None
  end.

(** [a || b] on two counters. *)
Definition or_else (a b : Z) : Z := if a =? 0 then b else a.


(** The counts of one entry of [stats.models] whose counters are numbers:
    its input, and its candidates or else its output. *)
Definition model_counts (modelData : json) : option (Z * Z) :=
  match modelData with
  | JNull => None
  | _ =>
    if truthy (field modelData "tokens") then
      match counter (field (the (field modelData "tokens")) "input"),
            counter (field (the (field modelData "tokens")) "candidates"),
            counter (field (the (field modelData "tokens")) "output") with
      | Some i, Some c, Some o => Some (i, or_else c o)
      | _, _, _ => None
      end
    else Some (0, 0)
  end.

Fixpoint models_total (models : list json) : option (Z * Z) :=
  match models with
  | [] => Some (0, 0)
  | m :: rest =>
    match model_counts m, models_total rest with
    | Some (i, o), Some (ti, to) => Some (i + ti, o + to)
    | _, _ => None
    end
  end.


(** [(v || "").slice] is callable *)
Definition has_slice (v : value) : bool :=
  match js_or v (Some (JStr "")) with
  | Some (JStr _) | Some (JArr _) => true
  | _ => false
  end.


(** ** Requests that reach the adapter *)

(** A /ask body that passes the checks made before the conversation is
    looked up: a prompt that is truthy and has a [slice] method, and an
    agent [p] (asked for, or claude by default) whose binary is there. *)
Definition passes_checks (h : host) (body : json) (p : agent) : Prop :=
  truthy (field body "prompt") = true
  /\ has_slice (field body "prompt") = true
  /\ agent_of (js_or (field body "provider") (Some (JStr "claude"))) = Some p
  /\ missing_binary h p = None.

(** The body names the conversation [id]. *)
Definition names (body : json) (id : string) : Prop :=
  field body "conversationId" = Some (JStr id) /\ nonempty id = true.

(** The options [/ask] hands to the adapter of [p] for a conversation
    whose stored session id is [sid]. *)
Definition options_of (p : agent) (body : json) (sid : value) : options :=
  match p with
  | Codex =>
    {| opt_sessionId := sid; opt_model := field body "model"; opt_systemPrompt := None |}
  | Gemini =>
    {| opt_sessionId := sid; opt_model := None; opt_systemPrompt := None |}
  | Claude =>
    {| opt_sessionId := sid; opt_model := field body "model";
       opt_systemPrompt := js_or (field body "systemPrompt")
                             (Some (JStr DEFAULT_SYSTEM_PROMPT)) |}
  end.

Definition call_of (p : agent) (body : json) (sid : value) (id : string) : call :=
  {| callee := p; prompt := the (field body "prompt");
     given := options_of p body sid; conversation := id |}.


(** ** The log queue: log and writeLogsToFile *)

(** [JSON.stringify], of the runtime like [JSON.parse]. *)
Variable JSON_stringify : json -> string.

(** [logQueue], [isWritingLog], the text handed to the [appendFile] that
    has not completed yet, and the content of the log file. *)
Record logger : Type := Logger {
  logQueue : list string;
  isWritingLog : bool;
  writing : option string;
  log_file : string
}.

(** The entry [log] builds: [data] is spread in only when it is truthy. *)
Definition log_entry (ts level msg : string) (data : value) : json :=
  object [("ts", Some (JStr ts)); ("level", Some (JStr level)); ("msg", Some (JStr msg));
          ("data", if truthy data then data else None)].

(** [log(level, msg, data)] at the time whose ISO text is [ts]. *)
Definition log (ts level msg : string) (data : value) (st : logger) : logger :=
  {| logQueue := (logQueue st ++ [JSON_stringify (log_entry ts level msg data)])%list;
     isWritingLog := isWritingLog st; writing := writing st; log_file := log_file st |}.

(** [writeLogsToFile] up to its [await]: nothing when the queue is empty or
    a write is under way; otherwise the whole queue is taken, joined by
    line feeds with one more at the end, and handed to [appendFile]. *)
Definition writeLogsToFile (st : logger) : logger :=
  if (Nat.eqb (List.length (logQueue st)) 0) || isWritingLog st then st
  else {| logQueue := []; isWritingLog := true;
          writing := Some (join (String newline "") (logQueue st) ++ String newline "");
          log_file := log_file st |}.

(** The [appendFile] completes, successfully or not; the [finally] block
    lowers the flag either way. *)
Definition appendFile_done (ok : bool) (st : logger) : logger :=
  match writing st with
  | Some lines =>
    {| logQueue := logQueue st; isWritingLog := false; writing := None;
       log_file := if ok then log_file st ++ lines else log_file st |}
  | None => st
  end.

Inductive log_event : Type :=
| Logged (ts level msg : string) (data : value)
| Flush
| Appended (ok : bool).

Definition log_step (st : logger) (e : log_event) : logger :=
  match e with
  | Logged ts level msg data => log ts level msg data st
  | Flush => writeLogsToFile st
  | Appended ok => appendFile_done ok st
  end.

(** The lines logged by a run, in order. *)
Fixpoint logged_lines (events : list log_event) : list string :=
  match events with
  | [] => []
  | Logged ts level msg data :: rest =>
    JSON_stringify (log_entry ts level msg data) :: logged_lines rest
  | _ :: rest => logged_lines rest
  end.

Definition no_failed_append (e : log_event) : Prop :=
  match e with
  | Appended false => False
  | _ => True
  end.

(** Each line followed by a line feed. *)
Definition as_lines (lines : list string) : string :=
  concat_text (map (fun l => l ++ String newline "") lines).

(** Everything a logger holds: the file, then the batch being written,
    then the queue. *)
Definition held (st : logger) : string :=
  log_file st ++ match writing st with Some lines => lines | None => "" end
  ++ as_lines (logQueue st).

(** The flag is up exactly while a batch is being written. *)
Definition consistent (st : logger) : Prop :=
  isWritingLog st = is_Some_b (writing st).


(** ** GET /providers *)

Definition availability (found : bool) (warning : string) : json :=
  JObj (("available", JBool found) :: if found then [] else [("warning", JStr warning)]).

Definition providers (h : host) : reply :=
  let availableCount :=
    1 + (if codex_found h then 1 else 0) + (if gemini_found h then 1 else 0) in
  Send 200
    (JObj [("providers",
            JObj [("claude", JObj [("available", JBool true)]);
                  ("codex", availability (codex_found h) ("Codex CLI not found at " ++ CODEX));
                  ("gemini", availability (gemini_found h) ("Gemini CLI not found at " ++ GEMINI))]);
           ("discussionAvailable", JBool (2 <=? availableCount))]).

(** ** formatDiscussionPrompt on the values of a request

    The function as POST /discuss runs it, on whatever JSON the body
    holds: [history] is an array of any values, [participatingProviders]
    any value. *)

(** [Number(s) > 0] for a string [s], of the runtime. *)
Variable Number_positive : string -> bool.

(** [v > 0] *)
Definition positive (v : value) : bool :=
  match v with
  | None | Some JNull | Some (JObj _) => false
  | Some (JBool b) => b
  | Some (JNum n) => 0 <? n
  | Some (JStr s) => Number_positive s
  | Some (JArr items) => Number_positive (to_string (JArr items))
  end.

(** [v.length > 0] *)
Definition has_entries (v : json) : bool :=
  match v with
  | JStr s => nonempty s
  | JArr items => match items with [] => false | _ => true end
  | JObj fields => positive (assoc "length" fields)
  | _ => false
  end.

(** The text [join] gives the entry [nameMap[p] || p]. *)
Definition addressee (p : json) : string :=
  match nameMap_get (to_string p) with
  | Some name => name
  | None => match p with JNull => "" | _ => to_string p end
  end.

(** One round of the loop that fills [seen]. *)
Definition see (targetProvider : string) (msg : json) : M (list string) unit :=
  who ← lift (get (Some msg) "provider");
  if truthy who && negb (is_string who targetProvider) then
    match nameMap_get (to_string (the who)) with
    | Some name => modify (add name)
    | None => ret tt
    end
  else ret tt.

(** One round of the loop that builds [transcript]. *)
Definition say (msg : json) : M string unit :=
  role ← lift (get (Some msg) "role");
  if is_string role "user" then
    content ← lift (get (Some msg) "content");
    modify (fun t => t ++ "[Human]: " ++ text content ++ blank_line)
  else
    who ← lift (get (Some msg) "provider");
    if truthy who then
      match nameMap_get (to_string (the who)) with
      | Some name =>
        content ← lift (get (Some msg) "content");
        modify (fun t => t ++ "[" ++ name ++ "]: " ++ text content ++ blank_line)
      | None => ret tt
      end
    else ret tt.

Definition run_loop {S A} (l : list A) (body : A -> M S unit) (start : S) : js S :=
  match for_each l body start with
  | (Ok _, s) => Ok s
  | (Throw e, _) => Throw e
  end.

(** The text returned, from its three variable parts. *)
Definition assemble (providerName othersStr transcript_text : string) : string :=
  "You are " ++ providerName ++ " in a roundtable discussion with " ++ othersStr
  ++ " and a human moderator." ++ blank_line
  ++ "Here is the full transcript so far:" ++ blank_line
  ++ transcript_text
  ++ "Now respond as " ++ providerName
  ++ ". Briefly summarize or quote the key points from " ++ othersStr
  ++ " that you are addressing, then give your response. "
  ++ "Engage directly with what each of the others said — agree, disagree, or build on their points. Do not prefix your response with your name.".

Definition formatDiscussionPrompt_json (history : list json) (targetProvider : string)
    (participatingProviders : value) : js string :=
  others ← (if truthy participatingProviders && has_entries (the participatingProviders)
            then match participatingProviders with
                 | Some (JArr items) =>
                   Ok (map addressee
                         (List.filter (fun p => negb (is_string (Some p) targetProvider)) items))
                 | _ => Throw TypeError
                 end
            else
              seen ← run_loop history (see targetProvider) [];
              Ok (match seen with
                  | [] => map snd (List.filter
                                     (fun kv => negb (String.eqb (fst kv) targetProvider))
                                     nameMap)
                  | names => names
                  end));
  transcript_text ← run_loop history say "";
  Ok (assemble (display targetProvider) (join " and " others) transcript_text).

(** A typed entry as the JSON object it stands for. *)
Definition encode (msg : message) : json :=
  object [("role", JStr <$> Transcript.role msg);
          ("provider", JStr <$> Transcript.provider msg);
          ("content", Some (JStr (Transcript.content msg)))].

Definition encode_list (participants : option (list string)) : value :=
  (fun l => JArr (map JStr l)) <$> participants.

(** ** POST /discuss *)

(** The adapter call of a discussion: no options are passed. *)
Record discussion : Type := Discussion {
  speaker_asked : agent;
  synthesized : string
}.

Definition no_options : options :=
  {| opt_sessionId := None; opt_model := None; opt_systemPrompt := None |}.

Inductive discuss_phase : Type :=
| Answered (r : reply)
| Asked (d : discussion).

Definition is_array (v : value) : bool :=
  match v with
  | Some (JArr _) => true
  | _ => false
  end.

Definition items_of (v : value) : list json :=
  match v with
  | Some (JArr items) => items
  | _ => []
  end.

(** POST /discuss up to its [await]. *)
Definition discuss_begin (h : host) (data : string) : discuss_phase :=
  match
    (body ← readBody data;
     history ← get body "history";
     if negb (truthy history) || negb (is_array history) then
       Ok (Answered (SendError 400 (Error "Missing 'history' array")))
     else
     requested ← get body "provider";
     match agent_of requested with
     | None =>
       Ok (Answered (SendError 400
                       (Error "Invalid provider. Must be 'claude', 'codex', or 'gemini'")))
     | Some p =>
       match missing_binary h p with
       | Some message => Ok (Answered (SendError 400 (Error message)))
       | None =>
         listed ← get body "participants";
         text_prompt ← formatDiscussionPrompt_json (items_of history) (agent_key p)
                         (js_or listed (Some (JArr [])));
         Ok (Asked {| speaker_asked := p; synthesized := text_prompt |})
       end
     end)
  with
  | Ok ph => ph
  | Throw e => Answered (SendError 500 e)
  end.



(** The arguments the adapter of a discussion spawns its process with. *)
Definition discussion_args (d : discussion) : list json :=
  spawn_args (speaker_asked d) (JStr (synthesized d)) no_options.


(** Further concrete inputs. *)

Definition claude_document : json :=
  JObj [("result", JStr "hi");
        ("usage", JObj [("input_tokens", JNum 3); ("cache_read_input_tokens", JNum 10);
                        ("output_tokens", JNum 7)])].

Definition gemini_output : string :=
  quoted "{'response':'hi','session_id':'g1','stats':{'models':{'flash':{'tokens':{'input':3,'candidates':4}},'pro':{'tokens':{'input':1,'output':2}}}}}".

Definition gemini_models : list (string * json) :=
  [("flash", JObj [("tokens", JObj [("input", JNum 3); ("candidates", JNum 4)])]);
   ("pro", JObj [("tokens", JObj [("input", JNum 1); ("output", JNum 2)])])].

Definition gemini_document : json :=
  JObj [("response", JStr "hi"); ("session_id", JStr "g1");
        ("stats", JObj [("models", JObj gemini_models)])].

Definition ask_gemini_on_unknown : string :=
  quoted "{'prompt':'hi','conversationId':'conv_9','provider':'gemini'}".

Definition ask_gemini_body : json :=
  JObj [("prompt", JStr "hi"); ("conversationId", JStr "conv_9");
        ("provider", JStr "gemini")].

Definition ask_claude_body : json :=
  JObj [("prompt", JStr "hi"); ("conversationId", JStr "conv_1")].

Definition session_answer : json :=
  JObj [("result", JStr "ok"); ("session_id", JStr "s2"); ("duration_ms", JNum 1200)].

Definition answers_with_session (c : call) : settlement := Resolve session_answer.

Definition two_entries : list message :=
  [ Message (Some "user") None "Topic?"; Message None (Some "claude") "X" ].

Definition discuss_codex : string :=
  quoted "{'history':[{'role':'user','content':'Topic?'},{'provider':'claude','content':'X'}],'provider':'codex'}".

Definition discuss_codex_body : json :=
  JObj [("history", JArr (map encode two_entries)); ("provider", JStr "codex")].

Definition logger_start : logger :=
  {| logQueue := []; isWritingLog := false; writing := None; log_file := "" |}.

Definition two_flushes : list log_event :=
  [ Logged "t1" "info" "Server started" None; Flush;
    Logged "t2" "warn" "late" (Some (JNum 1)); Appended true; Flush; Appended true ].


(** *** The log listing *)

(** [list.slice(-n)] *)
Definition last_n {A : Type} (n : nat) (l : list A) : list A :=
  skipn (List.length l - n) l.

(** [GET /logs].  [file] is the content of the log file, [None] when
    [readFileSync] throws; a line that [JSON.parse] rejects throws as well,
    and the [catch] block answers with an empty listing. *)
Definition view_logs (file : option string) : reply :=
  match file with
  | None => Send 200 (JObj [("logs", JArr [])])
  | Some logs =>
    match mapM JSON_parse (last_n 50 (split_lines (trim logs))) with
    | Some lines => Send 200 (JObj [("logs", JArr lines)])
    | None => Send 200 (JObj [("logs", JArr [])])
    end
  end.

(** No line feed inside. *)
Fixpoint single_line (s : string) : bool :=
  match s with
  | EmptyString => true
  | String c rest => negb (Ascii.eqb c newline) && single_line rest
  end.

(** An opening brace first and a closing brace last. *)
Definition in_braces (s : string) : bool :=
  starts_with "{" s && starts_with "}" (reverse_string s).

(** What [JSON.stringify] and [JSON.parse] do on the object [e]: the text
    is one line in braces, and parses back to [e]. *)
Definition faithful (e : json) : Prop :=
  single_line (JSON_stringify e) = true
  /\ in_braces (JSON_stringify e) = true
  /\ JSON_parse (JSON_stringify e) = Some e.

Definition older_entries : list json :=
  [ log_entry "t1" "info" "Server started" None ].

Definition newer_entries : list json :=
  [ log_entry "t2" "warn" "late" (Some (JNum 1));
    log_entry "t3" "info" "New conversation created"
      (Some (JObj [("convId", JStr "conv_1"); ("provider", JStr "claude")])) ].

Definition broken_log : string :=
  "{}" ++ String newline ("oops" ++ String newline ("{}" ++ String newline "")).


(** *** The lines of a text, as the specification reads them *)

(** [lines] are the lines of [text]: at least one piece, none with a line
    feed inside, that give [text] back when joined by line feeds. *)
Definition lines_of (text : string) (lines : list string) : Prop :=
  lines <> []
  /\ Forall (fun l => single_line l = true) lines
  /\ join (String newline "") lines = text.

(** The events among the lines of an output: the non-empty lines that
    parse. *)
Definition events_in (lines : list string) : list json :=
  omap JSON_parse (List.filter nonempty lines).

(** The lines of [four_events] once trimmed. *)
Definition four_lines : list string :=
  [ quoted "{'type':'thread.started','thread_id':'t1'}";
    "warning: not json";
    quoted "{'type':'item.completed','item':{'type':'agent_message','text':'A'}}";
    "null";
    quoted "{'type':'item.completed','item':{'type':'agent_message','text':'B'}}";
    quoted "{'type':'turn.completed','usage':{'input_tokens':3,'output_tokens':4}}" ].


(** *** Chunks as the streams deliver them *)

(** [buffer.toString()], of the runtime: the text of the bytes of a
    [Buffer]. *)
Variable Buffer_toString : string -> string.

(** A [Buffer] handed to a "data" listener at time [at_ms], on standard
    output or on standard error. *)
Record chunk : Type := Chunk {
  at_ms : Z;
  on_stdout : bool;
  bytes : string
}.

(** [stdout += chunk] and [stderr += chunk]: the listener appends the text
    of the chunk, every chunk converted on its own. *)
Definition received (c : chunk) : Z * process_event :=
  (at_ms c, if on_stdout c then Stdout (Buffer_toString (bytes c))
            else Stderr (Buffer_toString (bytes c))).

(** The texts of the chunks of one stream, in order. *)
Definition texts (of_stdout : bool) (chunks : list chunk) : list string :=
  map (fun c => Buffer_toString (bytes c))
      (List.filter (fun c => Bool.eqb (on_stdout c) of_stdout) chunks).

(** A reply whose last character, two bytes long, is cut by the end of a
    chunk. *)
Definition cut_reply : list chunk :=
  [ {| at_ms := 5; on_stdout := true; bytes := "caf" ++ String (ascii_of_nat 195) "" |};
    {| at_ms := 7; on_stdout := false; bytes := "warn" |};
    {| at_ms := 9; on_stdout := true; bytes := String (ascii_of_nat 169) "!" |} ].


(** *** Counts the engine adds exactly *)

(** The counts from 0 to [Number.MAX_SAFE_INTEGER], 2^53 - 1.  The engine's
    numbers are doubles: it adds such counts without rounding as long as
    the sum is one of them, which is where [js_add] is its [+]. *)
Definition safe (n : Z) : Prop := 0 <= n <= 9007199254740991.

(** The counters of one entry of [stats.models] are numbers, and the two
    that are added up are not negative. *)
Definition counts_from_zero (modelData : json) : Prop :=
  match model_counts modelData with
  | Some (i, o) => 0 <= i /\ 0 <= o
  | None => False
  end.


(** ** Facts about the line parser *)

Ltac run_monad :=
  cbv [mbind mret M_mbind M_ret js_mbind js_ret bind js_bind lift ret throw
       read modify when try_catch] in *.

Ltac split_if :=
  match goal with
  | |- context [if ?c then _ else _] => destruct c eqn:?
  | |- context [match ?c with Some _ => _ | None => _ end] => destruct c eqn:?
  end.

Lemma codex_line_effect (line : string) (p : parsed) :
  try_catch (codex_line line) (fun _ => ret tt) p
  = (Ok tt, match JSON_parse line with Some ev => codex_event p ev | None => p end).
Proof.
  unfold codex_line, parse_json.
  destruct (JSON_parse line) as [ev|]; [|reflexivity].
  destruct ev; try reflexivity.
  unfold codex_event, thread_started, agent_message, turn_completed, turn_aborted.
  run_monad. cbn [get field].
  destruct (is_string (assoc "type" fields) "thread.started");
  destruct (is_string (assoc "type" fields) "item.completed");
  destruct (is_string (assoc "type" fields) "turn.completed");
  destruct (is_string (assoc "type" fields) "turn.aborted");
  cbn [andb];
  destruct (assoc "thread_id" fields) as [tid|];
  destruct (assoc "usage" fields) as [usage|];
  destruct (assoc "item" fields) as [[| | | | |item]|];
  cbn [truthy get field is_string];
  repeat split_if; reflexivity.
Qed.

Lemma codex_lines_fold (lines : list string) (p : parsed) :
  for_each lines (fun line => try_catch (codex_line line) (fun _ => ret tt)) p
  = (Ok tt, fold_left codex_event (omap JSON_parse lines) p).
Proof.
  revert p. induction lines as [|line rest IH]; intros p; [reflexivity|].
  cbn [for_each]. unfold bind at 1. rewrite codex_line_effect.
  rewrite IH. cbn [omap list_omap].
  destruct (JSON_parse line); reflexivity.
Qed.

Lemma latest_cons {A} (x d : A) (l : list A) : latest (x :: l) d = latest l x.
Proof.
  unfold latest. revert x d. induction l as [|y l IH]; intros x d; [reflexivity|].
  change (List.last (x :: y :: l) d) with (List.last (y :: l) d).
  rewrite (IH y d), (IH y x). reflexivity.
Qed.

Lemma latest_omap_cons {A} (f : json -> option A) (ev : json) (evs : list json) (d : A) :
  latest (omap f (ev :: evs)) d
  = latest (omap f evs) (match f ev with Some x => x | None => d end).
Proof.
  cbn [omap list_omap]. destruct (f ev); [apply latest_cons|reflexivity].
Qed.

(** The fold over the events keeps, for each variable, the last event that
    sets it. *)
Lemma codex_events_latest (evs : list json) (p : parsed) :
  fold_left codex_event evs p
  = {| p_sessionId := latest (omap thread_started evs) (p_sessionId p);
       p_result := latest (omap agent_message evs) (p_result p);
       p_tokenUsage := latest (omap turn_completed evs) (p_tokenUsage p);
       p_aborted := p_aborted p || existsb turn_aborted evs |}.
Proof.
  revert p. induction evs as [|ev evs IH]; intros p.
  - destruct p; cbn. rewrite orb_false_r. reflexivity.
  - cbn [fold_left]. rewrite IH, !latest_omap_cons. cbn [existsb].
    unfold codex_event.
    destruct (thread_started ev), (agent_message ev), (turn_completed ev),
      (turn_aborted ev); destruct p; cbn;
      rewrite ?orb_true_r, ?orb_false_r; reflexivity.
Qed.

Lemma no_matching_event (evs : list json) :
  existsb matching evs = false ->
  omap thread_started evs = [] /\ omap agent_message evs = []
  /\ omap turn_completed evs = [] /\ existsb turn_aborted evs = false.
Proof.
  induction evs as [|ev evs IH]; cbn [existsb omap list_omap]; [auto|].
  intros H. apply orb_false_iff in H as [Hev Hrest].
  destruct (IH Hrest) as (-> & -> & -> & ->).
  unfold matching in Hev.
  destruct (thread_started ev), (agent_message ev), (turn_completed ev),
    (turn_aborted ev); cbn in Hev; try discriminate; auto.
Qed.

Lemma codex_try_spec (out : string) :
  codex_try out
  = if sliceable (p_result (parsed_spec out))
    then Ok (codex_result (parsed_spec out))
    else Throw TypeError.
Proof.
  unfold codex_try, parseCodexJSONL.
  rewrite codex_lines_fold, codex_events_latest.
  change {| p_sessionId := _; p_result := _; p_tokenUsage := _; p_aborted := _ |}
    with (parsed_spec out).
  unfold sliceable. cbn [mbind js_mbind js_bind].
  destruct (js_or (Some (p_result (parsed_spec out))) (Some (JStr ""))) as [[]|];
    reflexivity.
Qed.

(** ** Facts about the adapters *)

Lemma append_cons (c : ascii) (x y : string) : String c x ++ y = String c (x ++ y).
Proof. reflexivity. Qed.

Lemma append_assoc (x y z : string) : (x ++ y) ++ z = x ++ y ++ z.
Proof.
  induction x as [|c x IH]; [reflexivity|].
  rewrite !append_cons, IH. reflexivity.
Qed.

Lemma starts_with_append (x y : string) : starts_with x (x ++ y) = true.
Proof.
  induction x as [|c x IH]; [reflexivity|].
  rewrite append_cons. cbn [starts_with].
  rewrite Ascii.eqb_refl, IH. reflexivity.
Qed.

Lemma contains_append (x before after : string) :
  contains x (before ++ x ++ after) = true.
Proof.
  induction before as [|c before IH].
  - change ("" ++ x ++ after) with (x ++ after).
    destruct (x ++ after) eqn:E; cbn [contains];
      rewrite <- E, starts_with_append; reflexivity.
  - rewrite append_cons. cbn [contains]. rewrite IH. apply orb_true_r.
Qed.

Lemma append_empty (x : string) : x ++ "" = x.
Proof.
  induction x as [|c x IH]; [reflexivity|].
  rewrite append_cons, IH. reflexivity.
Qed.

(** A process that writes [out] and [err] and closes with [code], well
    before the bound: the promise is settled by the close handler. *)
Lemma invoke_then_close (a : agent) (code : option Z) (out err : string) :
  promise (invoke a [(0, Stdout out); (1, Stderr err); (2, Close code)])
  = Some (2, on_close a code out err).
Proof. reflexivity. Qed.

Lemma raw_result_tokens (a : agent) (out : string) :
  extractTokens (raw_result out) a = Ok {| input := JNum 0; output := JNum 0 |}.
Proof. destruct a; reflexivity. Qed.

(** C3. For each of the three adapters and every output of a process that
    exits with code zero: when the structured parsing (the [try] block of
    the close handler) fails, the adapter resolves with the raw output
    trimmed of surrounding white space as its result text and without a
    session id, and the usage extracted from that result is zero on both
    sides. *)
Theorem parse_failure_degrades_to_raw_output (a : agent) (out err : string) (e : exn) :
  structured a out = Throw e ->
  on_close a (Some 0) out err = Resolve (raw_result out)
  /\ promise (invoke a [(0, Stdout out); (1, Stderr err); (2, Close (Some 0))])
     = Some (2, Resolve (raw_result out))
  /\ get (Some (raw_result out)) "result" = Ok (Some (JStr (trim out)))
  /\ get (Some (raw_result out)) "session_id" = Ok undefined
  /\ extractTokens (raw_result out) a = Ok {| input := JNum 0; output := JNum 0 |}.
Proof.
  intros Hfail.
  assert (Hclose : on_close a (Some 0) out err = Resolve (raw_result out)).
  { unfold on_close. cbn [exited_zero Z.eqb negb]. rewrite Hfail. reflexivity. }
  split; [exact Hclose|]. split.
  - rewrite invoke_then_close, Hclose. reflexivity.
  - split; [reflexivity|]. split; [reflexivity|]. apply raw_result_tokens.
Qed.

(** A document that does not parse makes the structured parsing of the two
    single-document adapters fail. *)
Lemma unparsable_document_fails (out : string) :
  JSON_parse out = None ->
  structured Claude out = Throw (Error "SyntaxError")
  /\ structured Gemini out = Throw (Error "SyntaxError").
Proof.
  intros H. unfold structured, claude_try, gemini_try, parse_json.
  rewrite H. split; reflexivity.
Qed.

(** C4. For each of the three adapters, a close event whose exit code is
    not zero rejects the invocation whatever was written to standard
    output; the message of the failure is the captured standard error, or,
    when that is empty, a message that contains the exit code. *)
Theorem nonzero_exit_rejects (a : agent) (code : option Z) (out err : string) :
  exited_zero code = false ->
  on_close a code out err = Reject (Error (exit_message a code err))
  /\ promise (invoke a [(0, Stdout out); (1, Stderr err); (2, Close code)])
     = Some (2, Reject (Error (exit_message a code err)))
  /\ (nonempty err = true -> exit_message a code err = err)
  /\ (nonempty err = false ->
      contains (code_text code) (exit_message a code err) = true).
Proof.
  intros Hcode.
  assert (Hclose : on_close a code out err = Reject (Error (exit_message a code err))).
  { unfold on_close, exit_message. rewrite Hcode. reflexivity. }
  split; [exact Hclose|]. split.
  - rewrite invoke_then_close, Hclose. reflexivity.
  - unfold exit_message. split; intros ->; [reflexivity|].
    rewrite <- (append_empty (code_text code)) at 2.
    rewrite <- append_assoc.
    apply contains_append.
Qed.

(** C10, as amended. For every output text [parseCodexJSONL] returns
    without throwing, and with its initial values (no session id, empty
    result, no usage, not aborted) when no event sets a variable.  On a
    zero exit [callCodex] takes the raw-output branch exactly when the
    result it parsed has no [slice] method (a number other than zero,
    [true], or an object), because the preview computed for the log then
    throws; a text result never takes it. *)
Theorem codex_fallback_only_without_slice (out err : string) :
  parseCodexJSONL out = Ok (parsed_spec out)
  /\ (existsb matching (events out) = false -> parsed_spec out = parsed_start)
  /\ codex_try out
     = (if sliceable (p_result (parsed_spec out))
        then Ok (codex_result (parsed_spec out))
        else Throw TypeError)
  /\ on_close Codex (Some 0) out err
     = Resolve (if sliceable (p_result (parsed_spec out))
                then codex_result (parsed_spec out)
                else raw_result out)
  /\ (forall s, p_result (parsed_spec out) = JStr s ->
      on_close Codex (Some 0) out err = Resolve (codex_result (parsed_spec out))).
Proof.
  assert (Hclose : on_close Codex (Some 0) out err
                   = Resolve (if sliceable (p_result (parsed_spec out))
                              then codex_result (parsed_spec out)
                              else raw_result out)).
  { unfold on_close. cbn [exited_zero Z.eqb negb structured].
    rewrite codex_try_spec.
    destruct (sliceable (p_result (parsed_spec out))); reflexivity. }
  split.
  { unfold parseCodexJSONL. rewrite codex_lines_fold, codex_events_latest.
    reflexivity. }
  split.
  { intros Hnone. apply no_matching_event in Hnone as (Ht & Hm & Hu & Ha).
    unfold parsed_spec. rewrite Ht, Hm, Hu, Ha. reflexivity. }
  split; [apply codex_try_spec|].
  split; [exact Hclose|].
  intros s Hs. rewrite Hclose, Hs.
  unfold sliceable, js_or. cbn [truthy the].
  destruct (nonempty s); reflexivity.
Qed.

(** *** The timer *)

Lemma process_keeps_killed (a : agent) (l : list (Z * process_event)) (i : invocation) :
  killed (fold_left (step a) (map delivered l) i) = killed i.
Proof.
  revert i. induction l as [|[t e] l IH]; intros i; [reflexivity|].
  cbn [map fold_left]. rewrite IH. destruct e; reflexivity.
Qed.

Lemma settled_stays (a : agent) (evs : list (Z * event)) (i : invocation)
    (p : Z * settlement) :
  promise i = Some p -> promise (fold_left (step a) evs i) = Some p.
Proof.
  revert i. induction evs as [|[t e] evs IH]; intros i Hp; [exact Hp|].
  cbn [fold_left]. apply IH.
  destruct e as [[]|]; cbn; try destruct (timer i); cbn; rewrite ?Hp; reflexivity.
Qed.

Lemma timer_stays_off (a : agent) (l : list (Z * process_event)) (i : invocation) :
  timer i = false -> timer (fold_left (step a) (map delivered l) i) = false.
Proof.
  revert i. induction l as [|[t e] l IH]; intros i Hoff; [exact Hoff|].
  cbn [map fold_left]. apply IH. destruct e; cbn; auto.
Qed.

(** While the process neither closes nor fails, the promise is pending and
    the timer stays as it is. *)
Lemma process_still_running (a : agent) (l : list (Z * process_event)) (i : invocation) :
  existsb ends l = false ->
  promise (fold_left (step a) (map delivered l) i) = promise i
  /\ timer (fold_left (step a) (map delivered l) i) = timer i.
Proof.
  revert i. induction l as [|[t e] l IH]; intros i Hno; [split; reflexivity|].
  cbn [existsb] in Hno. apply orb_false_iff in Hno as [He Hl].
  cbn [map fold_left]. destruct (IH (step a i (delivered (t, e))) Hl) as [-> ->].
  destruct e; cbn in He; try discriminate; split; reflexivity.
Qed.

(** Once the process closes or fails before the bound, the promise is
    settled at that time and the timer is cleared. *)
Lemma process_ended (a : agent) (l : list (Z * process_event)) (i : invocation) :
  existsb ends l = true ->
  Forall (fun te => before_bound te = true) l ->
  promise i = None ->
  exists t s, promise (fold_left (step a) (map delivered l) i) = Some (t, s)
              /\ t < timeout_ms
              /\ timer (fold_left (step a) (map delivered l) i) = false.
Proof.
  revert i. induction l as [|[t e] l IH]; intros i Hend Hearly Hpending;
    [discriminate|].
  inversion Hearly as [|? ? Ht Hrest]; subst.
  unfold before_bound in Ht. cbn [fst] in Ht. apply Z.ltb_lt in Ht.
  cbn [map fold_left].
  destruct (ends (t, e)) eqn:He.
  - assert (Hnow : exists s, promise (step a i (delivered (t, e))) = Some (t, s)
                             /\ timer (step a i (delivered (t, e))) = false).
    { destruct e; cbn in He; try discriminate; cbn; rewrite Hpending; eauto. }
    destruct Hnow as (s & Hs & Hoff).
    exists t, s. split; [|split; [exact Ht|]].
    + apply settled_stays. exact Hs.
    + apply timer_stays_off. exact Hoff.
  - cbn [existsb] in Hend. rewrite He in Hend. cbn [orb] in Hend.
    apply IH; [exact Hend|exact Hrest|].
    destruct e; cbn in He; try discriminate; exact Hpending.
Qed.

Lemma early_events (process : list (Z * process_event)) :
  Forall (fun te => before_bound te = true) (List.filter before_bound process).
Proof.
  apply Forall_forall. intros te Hin.
  apply list_elem_of_In, filter_In in Hin. tauto.
Qed.

(** C9. For every adapter and every behaviour of the process, the timer
    armed at spawn bounds the invocation at 120 seconds: the promise is
    always settled, no later than 120000 ms after the spawn.  When the
    process has neither closed nor failed before the bound, the timer
    callback sends SIGKILL at once (the only signal ever sent, with no
    earlier, gentler one) and the invocation fails with the timeout
    error, which carries nothing of the output captured so far. *)
Theorem timeout_bounds_every_invocation (a : agent) (process : list (Z * process_event)) :
  (exists t s, promise (invoke a process) = Some (t, s) /\ t <= 120000)
  /\ (existsb ends (List.filter before_bound process) = false ->
      promise (invoke a process)
      = Some (120000, Reject (Error (agent_label a ++ " timed out after 120s")))
      /\ killed (invoke a process) = [(120000, SIGKILL)]).
Proof.
  unfold invoke, schedule. rewrite fold_left_app. cbn [fold_left].
  set (early := List.filter before_bound process).
  set (late := List.filter (fun te => negb (before_bound te)) process).
  set (i1 := fold_left (step a) (map delivered early) spawned).
  assert (Hrun : existsb ends early = false ->
                 step a i1 (timeout_ms, TimerFired)
                 = {| stdout := stdout i1; stderr := stderr i1; timer := false;
                      promise := Some (timeout_ms, Reject (timeout_error a));
                      killed := [(timeout_ms, SIGKILL)] |}).
  { intros Hno.
    destruct (process_still_running a early spawned Hno) as [Hp Ht].
    fold i1 in Hp, Ht. cbn in Hp, Ht.
    pose proof (process_keeps_killed a early spawned) as Hk.
    fold i1 in Hk. cbn in Hk.
    cbn [step]. rewrite Ht. unfold settle. cbn. rewrite Hp, Hk. reflexivity. }
  split.
  - destruct (existsb ends early) eqn:Hend.
    + destruct (process_ended a early spawned Hend (early_events process) eq_refl)
        as (t & s & Hs & Ht & Hoff).
      fold i1 in Hs, Hoff.
      exists t, s. split; [|unfold timeout_ms in Ht; lia].
      apply settled_stays. cbn [step]. rewrite Hoff. exact Hs.
    + exists timeout_ms, (Reject (timeout_error a)). split; [|unfold timeout_ms; lia].
      apply settled_stays. rewrite (Hrun eq_refl). reflexivity.
  - intros Hno. rewrite (Hrun Hno). split.
    + apply (settled_stays a (map delivered late)). reflexivity.
    + apply (process_keeps_killed a late).
Qed.

(** ** Facts about the request handlers *)

Ltac case_on_match H :=
  match type of H with
  | context [match ?x with _ => _ end] =>
    lazymatch x with
    | context [match _ with _ => _ end] => fail
    | _ => destruct x eqn:?
    end
  end.

Lemma set_provider_same (p : agent) (cv : conv) :
  truthy (provider cv) = false -> same_turn_and_token cv (set_provider p cv).
Proof.
  intros Hnone. repeat split. intros Hsome. rewrite Hnone in Hsome. discriminate.
Qed.

(** Up to its [await], the handler changes no turn count and no session
    id: it can only add the entry of a new conversation, or give a
    provider to an entry that has none. *)
Lemma ask_begin_store (h : host) (data : string) (ss ss1 : gmap string conv)
    (ph : js phase) (id : string) (cv0 : conv) :
  ask_begin h data ss = (ph, ss1) ->
  ss !! id = Some cv0 ->
  id <> new_id h ->
  exists cv, ss1 !! id = Some cv /\ same_turn_and_token cv0 cv.
Proof.
  intros H Hid Hfresh.
  assert (Hsame : same_turn_and_token cv0 cv0) by (repeat split).
  assert (Hins : forall x, <[new_id h:=x]> ss !! id = Some cv0)
    by (intros x; rewrite lookup_insert_ne; auto).
  unfold ask_begin, readBody, options_for in H. run_monad.
  repeat case_on_match H;
    injection H as <- <-; eauto;
    match goal with
    | |- context [alter _ ?k _] =>
      destruct (decide (k = id)) as [Heq|Hne];
        [|rewrite lookup_alter_ne by exact Hne; eauto]
    end;
    try (exfalso; apply Hfresh; symmetry; exact Heq).
  all: rewrite Heq in *; rewrite lookup_alter_eq.
  all: match goal with
       | Hn : negb (truthy (provider ?c0)) = true |- _ =>
         assert (c0 = cv0) by congruence; subst c0;
         apply negb_true_iff in Hn
       end.
  all: rewrite Hid; cbn [fmap option_fmap option_map];
    eexists; split; [reflexivity|];
    apply set_provider_same; assumption.
Qed.

(** The three ways an invocation fails all reject its promise. *)
Lemma every_failure_rejects (a : agent) (code : option Z) (out err : string) (e : exn) :
  exited_zero code = false ->
  promise (invoke a []) = Some (timeout_ms, Reject (timeout_error a))
  /\ promise (invoke a [(0, SpawnError e)]) = Some (0, Reject e)
  /\ exists failure,
       promise (invoke a [(0, Stdout out); (1, Stderr err); (2, Close code)])
       = Some (2, Reject failure).
Proof.
  intros Hcode. split; [reflexivity|]. split; [reflexivity|].
  rewrite invoke_then_close. unfold on_close. rewrite Hcode. eauto.
Qed.

(** C2. For every /ask request whose adapter call fails, whatever the
    failure (timeout, non-zero exit and spawn error all reject the
    promise): the request answers 500 with the error and leaves the store
    exactly as it was when the call was made, so the turn count and the
    session id of the conversation are those of before the call; and
    every conversation that existed before the request still has the turn
    count and the session id it had. *)
Theorem failed_call_keeps_turns_and_token (h : host) (data : string)
    (ss ss1 : gmap string conv) (c : call) (adapter : call -> settlement) (e : exn) :
  ask_begin h data ss = (Ok (Await c), ss1) ->
  adapter c = Reject e ->
  ask h adapter data ss = (Ok (SendError 500 e, Some c), ss1)
  /\ ask_end c (Reject e) ss1 = (Ok (SendError 500 e), ss1)
  /\ (forall id cv0, ss !! id = Some cv0 -> id <> new_id h ->
      exists cv, snd (ask h adapter data ss) !! id = Some cv
                 /\ turns cv = turns cv0 /\ sessionId cv = sessionId cv0).
Proof.
  intros Hbegin Hfail.
  assert (Hask : ask h adapter data ss = (Ok (SendError 500 e, Some c), ss1)).
  { unfold ask. run_monad. rewrite Hbegin, Hfail. reflexivity. }
  split; [exact Hask|]. split; [reflexivity|].
  intros id cv0 Hid Hfresh. rewrite Hask. cbn [snd].
  destruct (ask_begin_store h data ss ss1 _ id cv0 Hbegin Hid Hfresh)
    as (cv & Hcv & Hturns & Htoken & _).
  eauto.
Qed.

(** A call that succeeds is what records a turn: the count goes up by one
    and the session id is replaced when the result carries one. *)
Lemma successful_call_records_turn (c : call) (result : json) (ss1 : gmap string conv) :
  result <> JNull ->
  snd (ask_end c (Resolve result) ss1)
  = alter (record_turn (field result "session_id")) (conversation c) ss1.
Proof.
  intros Hnot. unfold ask_end. run_monad.
  assert (Hget : forall k, get (Some result) k = Ok (field result k))
    by (intros k; destruct result; try reflexivity; contradiction).
  rewrite !Hget.
  destruct (alter _ _ ss1 !! conversation c); [|reflexivity].
  destruct (extractTokens result (callee c)); reflexivity.
Qed.

(** After its [await] the handler either leaves the store alone or records
    one turn on the conversation of the call. *)
Lemma ask_end_store (c : call) (s : settlement) (ss1 : gmap string conv) :
  snd (ask_end c s ss1) = ss1
  \/ exists session_id,
       snd (ask_end c s ss1) = alter (record_turn session_id) (conversation c) ss1.
Proof.
  unfold ask_end. run_monad.
  destruct s as [result|e]; [|left; reflexivity].
  destruct (get (Some result) "session_id") as [session_id|e]; [|left; reflexivity].
  right. exists session_id.
  destruct (alter _ _ ss1 !! conversation c); [|reflexivity].
  destruct (extractTokens result (callee c)).
  - destruct (get (Some result) "result"); [|reflexivity].
    destruct (get (Some result) "duration_ms"); reflexivity.
  - reflexivity.
Qed.

(** What does hold of the stored agent: once an entry has a provider, no
    /ask request changes it, whatever agent the request asks for and
    however the call ends. *)
Lemma ask_keeps_stored_provider (h : host) (adapter : call -> settlement)
    (data : string) (ss : gmap string conv) (id : string) (cv0 : conv) :
  ss !! id = Some cv0 ->
  id <> new_id h ->
  truthy (provider cv0) = true ->
  exists cv, snd (ask h adapter data ss) !! id = Some cv /\ provider cv = provider cv0.
Proof.
  intros Hid Hfresh Hbound. unfold ask. run_monad.
  destruct (ask_begin h data ss) as [ph ss1] eqn:Hbegin.
  destruct (ask_begin_store h data ss ss1 ph id cv0 Hbegin Hid Hfresh)
    as (cv1 & Hcv1 & _ & _ & Hprov).
  specialize (Hprov Hbound).
  destruct ph as [[r|c]|e]; cbn [snd]; eauto.
  destruct (ask_end c (adapter c) ss1) as [r2 ss2] eqn:Hend.
  assert (Hss2 : ss2 = snd (ask_end c (adapter c) ss1)) by (rewrite Hend; reflexivity).
  assert (Hgoal : exists cv, ss2 !! id = Some cv /\ provider cv = provider cv0).
  { destruct (ask_end_store c (adapter c) ss1) as [Hsame|[session_id Hturn]].
    - rewrite Hss2, Hsame. eauto.
    - rewrite Hss2, Hturn.
      destruct (decide (conversation c = id)) as [->|Hne].
      + rewrite lookup_alter_eq, Hcv1. cbn. eauto.
      + rewrite lookup_alter_ne by exact Hne. eauto. }
  destruct r2; exact Hgoal.
Qed.

(** C1, as amended. Take a conversation with at least one recorded turn
    whose stored agent is A, and a /ask request that names it and asks
    for another agent B.  The request fails with status 400, no adapter
    is invoked and the store, hence the stored agent, is unchanged.  The
    error is the provider mismatch whenever the request carries a prompt
    and the binary of B is installed; the checks of the prompt and of the
    binary come first and answer with their own error. *)
Theorem pinned_conversation_refuses_other_agent (h : host) (data : string)
    (ss : gmap string conv) (adapter : call -> settlement)
    (body : json) (id : string) (cv : conv) (A B : agent) :
  JSON_parse data = Some body ->
  field body "conversationId" = Some (JStr id) ->
  nonempty id = true ->
  ss !! id = Some cv ->
  0 < turns cv ->
  provider cv = Some (JStr (agent_key A)) ->
  agent_of (js_or (field body "provider") (Some (JStr "claude"))) = Some B ->
  A <> B ->
  (exists e, ask h adapter data ss = (Ok (SendError 400 e, None), ss))
  /\ (truthy (field body "prompt") = true ->
      missing_binary h B = None ->
      ask h adapter data ss = (Ok (SendError 400 (mismatch_error cv), None), ss)).
Proof.
  intros Hparse Hcid Hid Hcv Hturns Hprov HB Hne.
  destruct body as [| | | | |fields]; try discriminate. cbn [field] in *.
  assert (Hguard : (0 <? turns cv) && truthy (provider cv)
                   && negb (is_string (provider cv) (agent_key B)) = true).
  { rewrite Hprov. apply Z.ltb_lt in Hturns. rewrite Hturns.
    destruct A, B; try reflexivity; contradiction. }
  assert (Hhas : has ss (Some (JStr id)) = true).
  { cbn [has]. apply bool_decide_eq_true. rewrite Hcv. eauto. }
  unfold ask, ask_begin, readBody. run_monad.
  rewrite Hparse. cbn [get]. rewrite Hcid, HB.
  destruct (truthy (assoc "prompt" fields)) eqn:Hprompt; cbn [negb].
  - destruct (missing_binary h B) as [message|] eqn:Hbin.
    + split; [eauto|]. intros _ Hfound. discriminate.
    + cbn [truthy]. rewrite Hid, Hhas. cbn [negb orb text to_string].
      rewrite Hcv, Hguard. split; [eauto|]. reflexivity.
  - split; [eauto|]. intros Hp. discriminate.
Qed.

(** ** Further facts about the adapters *)

(** While only chunks arrive, the adapter does nothing but append them. *)
Lemma chunks_are_appended (a : agent) (pre : list (Z * process_event)) (i : invocation) :
  Forall early_chunk pre ->
  fold_left (step a) (map delivered pre) i
  = {| stdout := stdout i ++ written_out pre; stderr := stderr i ++ written_err pre;
       timer := timer i; promise := promise i; killed := killed i |}.
Proof.
  intros Hpre. revert i. induction Hpre as [|[t e] pre [_ He] _ IH]; intros i.
  - cbn. rewrite !append_empty. destruct i; reflexivity.
  - cbn [map fold_left]. rewrite IH.
    destruct e; cbn in He; try discriminate; cbn; rewrite ?append_assoc; reflexivity.
Qed.

Lemma early_prefix (pre : list (Z * process_event)) (rest : list (Z * process_event)) :
  Forall early_chunk pre ->
  List.filter before_bound (pre ++ rest) = (pre ++ List.filter before_bound rest)%list
  /\ List.filter (fun te => negb (before_bound te)) (pre ++ rest)
     = List.filter (fun te => negb (before_bound te)) rest.
Proof.
  intros Hpre. induction Hpre as [|te pre [Ht _] _ [IH1 IH2]]; [split; reflexivity|].
  cbn [app List.filter]. rewrite Ht. cbn [negb]. rewrite IH1, IH2. split; reflexivity.
Qed.

(** How an invocation goes when the process writes chunks and then ends,
    with event [e] at time [t], before the bound: the promise is settled
    by that event from everything written so far, and no signal is sent. *)
Lemma invoke_ended_early (a : agent) (pre rest : list (Z * process_event))
    (t : Z) (e : process_event) :
  Forall early_chunk pre ->
  t < timeout_ms ->
  ends (t, e) = true ->
  promise (invoke a (pre ++ (t, e) :: rest))
  = promise (step a {| stdout := written_out pre; stderr := written_err pre;
                       timer := true; promise := None; killed := [] |}
               (t, Process e))
  /\ killed (invoke a (pre ++ (t, e) :: rest)) = [].
Proof.
  intros Hpre Ht He.
  assert (Hbefore : before_bound (t, e) = true) by (apply Z.ltb_lt; exact Ht).
  unfold invoke, schedule.
  destruct (early_prefix pre ((t, e) :: rest) Hpre) as [-> ->].
  cbn [List.filter]. rewrite Hbefore. cbn [negb].
  rewrite map_app, !fold_left_app. cbn [map fold_left].
  rewrite (chunks_are_appended a pre spawned Hpre). cbn [spawned stdout stderr timer promise killed].
  change ("" ++ written_out pre) with (written_out pre).
  change ("" ++ written_err pre) with (written_err pre).
  change (delivered (t, e)) with (t, Process e).
  set (i0 := {| stdout := written_out pre; stderr := written_err pre;
                timer := true; promise := None; killed := [] |}).
  assert (Hnow : exists s, promise (step a i0 (t, Process e)) = Some (t, s)
                           /\ timer (step a i0 (t, Process e)) = false
                           /\ killed (step a i0 (t, Process e)) = []).
  { destruct e; cbn in He; try discriminate; cbn; eauto. }
  destruct Hnow as (s & Hs & Hoff & Hk).
  set (i1 := step a i0 (t, Process e)) in *.
  set (i2 := fold_left (step a) (map delivered (List.filter before_bound rest)) i1).
  assert (Hoff2 : timer i2 = false) by (apply timer_stays_off; exact Hoff).
  assert (Hk2 : killed i2 = []) by (unfold i2; rewrite process_keeps_killed; exact Hk).
  assert (Hs2 : promise i2 = Some (t, s)) by (apply settled_stays; exact Hs).
  cbn [step]. rewrite Hoff2. split.
  - rewrite Hs. apply settled_stays. exact Hs2.
  - rewrite process_keeps_killed. exact Hk2.
Qed.

Lemma received_early (chunks : list chunk) :
  Forall (fun c => at_ms c < timeout_ms) chunks ->
  Forall early_chunk (map received chunks).
Proof.
  induction 1 as [|c chunks Hc _ IH]; [constructor|].
  cbn [map]. constructor; [|exact IH].
  split; [apply Z.ltb_lt; exact Hc|].
  unfold received, ends. cbn [snd]. destruct (on_stdout c); reflexivity.
Qed.

Lemma written_received (chunks : list chunk) :
  written_out (map received chunks) = concat_text (texts true chunks)
  /\ written_err (map received chunks) = concat_text (texts false chunks).
Proof.
  unfold texts. induction chunks as [|c chunks [IHout IHerr]]; [split; reflexivity|].
  cbn [map List.filter]. unfold received at 1 3.
  destruct (on_stdout c); cbn [written_out written_err Bool.eqb map concat_text fold_right];
    fold (concat_text (map (fun c => Buffer_toString (bytes c))
                         (List.filter (fun c => Bool.eqb (on_stdout c) true) chunks)));
    fold (concat_text (map (fun c => Buffer_toString (bytes c))
                         (List.filter (fun c => Bool.eqb (on_stdout c) false) chunks)));
    rewrite IHout, IHerr; split; reflexivity.
Qed.

(** X1. The output of a process is captured in full and in order, chunk
    by chunk: when the streams deliver buffers and the process then closes
    before the bound, the close handler sees, for each stream, the texts
    of its buffers joined in order, each buffer converted on its own, and
    its result settles the invocation at the time of the close, whatever
    the process or the timer do afterwards. *)
Theorem close_sees_all_output (a : agent) (chunks : list chunk)
    (rest : list (Z * process_event)) (t : Z) (code : option Z) :
  Forall (fun c => at_ms c < timeout_ms) chunks ->
  t < timeout_ms ->
  promise (invoke a (map received chunks ++ (t, Close code) :: rest))
  = Some (t, on_close a code (concat_text (texts true chunks))
               (concat_text (texts false chunks))).
Proof.
  intros Hchunks Ht.
  destruct (invoke_ended_early a (map received chunks) rest t (Close code)
              (received_early chunks Hchunks) Ht eq_refl) as [-> _].
  destruct (written_received chunks) as [-> ->].
  reflexivity.
Qed.

(** X2. A spawn that fails rejects the invocation with the error of the
    spawn itself, whatever was written before and whatever follows: a
    later close event cannot replace it. *)
Theorem spawn_error_rejects (a : agent) (pre rest : list (Z * process_event))
    (t : Z) (e : exn) :
  Forall early_chunk pre ->
  t < timeout_ms ->
  promise (invoke a (pre ++ (t, SpawnError e) :: rest)) = Some (t, Reject e).
Proof.
  intros Hpre Ht.
  destruct (invoke_ended_early a pre rest t (SpawnError e) Hpre Ht eq_refl) as [-> _].
  reflexivity.
Qed.

(** X3. The timer is cleared by the close and error handlers: a process
    that closes or fails before the bound is never sent a signal, and its
    invocation is settled before the bound. *)
Theorem ended_process_is_never_killed (a : agent) (process : list (Z * process_event)) :
  existsb ends (List.filter before_bound process) = true ->
  killed (invoke a process) = []
  /\ exists t s, promise (invoke a process) = Some (t, s) /\ t < 120000.
Proof.
  intros Hend. unfold invoke, schedule. rewrite fold_left_app. cbn [fold_left].
  destruct (process_ended a (List.filter before_bound process) spawned Hend
              (early_events process) eq_refl) as (t & s & Hs & Ht & Hoff).
  cbn [step]. rewrite Hoff. split.
  - rewrite !process_keeps_killed. reflexivity.
  - exists t, s. split; [|exact Ht]. apply settled_stays. exact Hs.
Qed.

(** ** Facts about the usage counters *)

Lemma get_field (v : json) (k : string) :
  v <> JNull -> get (Some v) k = Ok (field v k).
Proof. intros Hv. destruct v; try reflexivity. contradiction. Qed.

Lemma get_truthy (v : value) (k : string) :
  truthy v = true -> get v k = Ok (field (the v) k).
Proof. destruct v as [[]|]; cbn; intros H; try discriminate; reflexivity. Qed.

Lemma counter_or_zero (v : value) (n : Z) :
  counter v = Some n -> the (js_or v zero) = JNum n.
Proof.
  destruct v as [[]|]; cbn; intros [= <-]; [|reflexivity].
  unfold js_or. cbn. destruct (n0 =? 0) eqn:E; cbn; [|reflexivity].
  apply Z.eqb_eq in E. subst. reflexivity.
Qed.

Lemma counter_truthy (v : value) (n : Z) :
  counter v = Some n -> truthy v = negb (n =? 0).
Proof. destruct v as [[]|]; cbn; intros [= <-]; reflexivity. Qed.


(** X5. For claude, when the counters of [usage] are numbers (a missing
    one counting zero) and the three input counters and their sum are
    counts the engine adds exactly, the input figure is the sum of the
    live, the cache-read and the cache-creation input tokens, and the
    output figure is the output tokens. *)
Theorem claude_input_sums_cache_tokens (result : json) (usage : list (string * json))
    (live cache_read cache_creation out : Z) :
  field result "usage" = Some (JObj usage) ->
  counter (assoc "input_tokens" usage) = Some live ->
  counter (assoc "cache_read_input_tokens" usage) = Some cache_read ->
  counter (assoc "cache_creation_input_tokens" usage) = Some cache_creation ->
  counter (assoc "output_tokens" usage) = Some out ->
  safe live -> safe cache_read -> safe cache_creation ->
  safe (live + cache_read + cache_creation) ->
  extractTokens result Claude
  = Ok {| input := JNum (live + cache_read + cache_creation); output := JNum out |}.
Proof.
  intros Husage Hlive Hread Hcreate Hout _ _ _ _.
  assert (Hresult : result <> JNull) by (intros ->; discriminate).
  unfold extractTokens. run_monad.
  rewrite (get_field result _ Hresult), Husage. cbn [truthy get].
  rewrite (counter_or_zero _ _ Hlive), (counter_or_zero _ _ Hread),
    (counter_or_zero _ _ Hcreate), (counter_or_zero _ _ Hout).
  reflexivity.
Qed.

Lemma codex_result_usage (p : parsed) :
  field (codex_result p) "token_usage" = Some (p_tokenUsage p).
Proof. reflexivity. Qed.

(** X6. The usage of a codex run reaches the reply: when the result text
    has a [slice] method and the last completed turn carries a usage
    object with numeric counters, [callCodex] resolves with the parsed
    fields and [extractTokens] reads from them [input_tokens], or
    [total_input_tokens] when that is zero or missing, and likewise for
    the output. *)
Theorem codex_usage_reaches_tokens (out err : string) (usage : list (string * json))
    (i ti o to : Z) :
  sliceable (p_result (parsed_spec out)) = true ->
  p_tokenUsage (parsed_spec out) = JObj usage ->
  counter (assoc "input_tokens" usage) = Some i ->
  counter (assoc "total_input_tokens" usage) = Some ti ->
  counter (assoc "output_tokens" usage) = Some o ->
  counter (assoc "total_output_tokens" usage) = Some to ->
  on_close Codex (Some 0) out err = Resolve (codex_result (parsed_spec out))
  /\ extractTokens (codex_result (parsed_spec out)) Codex
     = Ok {| input := JNum (or_else i ti); output := JNum (or_else o to) |}.
Proof.
  intros Hslice Husage Hi Hti Ho Hto. split.
  - unfold on_close. cbn [exited_zero Z.eqb negb structured].
    rewrite codex_try_spec, Hslice. reflexivity.
  - unfold extractTokens. run_monad.
    rewrite get_field by discriminate.
    rewrite codex_result_usage, Husage. cbn [truthy get].
    rewrite (counter_truthy _ _ Hi), (counter_truthy _ _ Ho).
    unfold or_else.
    destruct (i =? 0) eqn:Ei, (o =? 0) eqn:Eo; cbn [negb];
      rewrite ?(counter_or_zero _ _ Hi), ?(counter_or_zero _ _ Hti),
        ?(counter_or_zero _ _ Ho), ?(counter_or_zero _ _ Hto);
      reflexivity.
Qed.

(** The loop of [callGemini] over the models adds up their counts. *)
Lemma gemini_models_sum (models : list json) (a b ti to : Z) :
  models_total models = Some (ti, to) ->
  for_each models gemini_model (JNum a, JNum b)
  = (Ok tt, (JNum (a + ti), JNum (b + to))).
Proof.
  revert a b ti to. induction models as [|m rest IH]; intros a b ti to Htotal.
  - injection Htotal as <- <-. cbn. rewrite !Z.add_0_r. reflexivity.
  - cbn [models_total] in Htotal.
    destruct (model_counts m) as [[i o]|] eqn:Hm; [|discriminate].
    destruct (models_total rest) as [[ri ro]|] eqn:Hrest; [|discriminate].
    injection Htotal as <- <-.
    assert (Hone : gemini_model m (JNum a, JNum b) = (Ok tt, (JNum (a + i), JNum (b + o)))).
    { unfold model_counts in Hm. unfold gemini_model. run_monad.
      assert (Hm' : m <> JNull) by (intros ->; discriminate).
      rewrite (get_field m _ Hm').
      destruct m; try contradiction;
        destruct (truthy (field _ "tokens")) eqn:Htokens;
        try (injection Hm as <- <-; rewrite !Z.add_0_r; reflexivity).
      all: destruct (counter (field _ "input")) as [ci|] eqn:Hci; [|discriminate];
        destruct (counter (field _ "candidates")) as [cc|] eqn:Hcc; [|discriminate];
        destruct (counter (field _ "output")) as [co|] eqn:Hco; [|discriminate];
        injection Hm as <- <-;
        rewrite !(get_truthy _ _ Htokens); cbv beta iota;
        rewrite (counter_truthy _ _ Hcc); unfold or_else;
        destruct (cc =? 0) eqn:Ecc; cbn [negb];
        rewrite ?(get_truthy _ _ Htokens); cbv beta iota; cbn [fst snd];
        change (Some (JNum 0)) with zero;
        rewrite ?(counter_or_zero _ _ Hci), ?(counter_or_zero _ _ Hcc),
          ?(counter_or_zero _ _ Hco);
        reflexivity. }
    cbn [for_each]. unfold bind at 1. rewrite Hone.
    rewrite (IH (a + i) (b + o) ri ro eq_refl).
    rewrite !Z.add_assoc. reflexivity.
Qed.

(** X7. [callGemini] adds the usage up over every model of
    [stats.models]: when the counters are numbers that are not negative,
    the two totals are counts the engine adds exactly and the response has
    a [slice] method, it resolves with the response, the session id and
    the totals (the input of each model; its candidates, or its output
    when there are no candidates), and [extractTokens] returns those
    totals. *)
Theorem gemini_usage_sums_models (out err : string) (doc stats : json)
    (models : list (string * json)) (ti to : Z) :
  JSON_parse out = Some doc ->
  field doc "stats" = Some stats ->
  field stats "models" = Some (JObj models) ->
  models_total (map snd models) = Some (ti, to) ->
  Forall counts_from_zero (map snd models) ->
  safe ti -> safe to ->
  has_slice (field doc "response") = true ->
  on_close Gemini (Some 0) out err
  = Resolve (object [("result", field doc "response");
                     ("session_id", field doc "session_id");
                     ("token_usage", Some (JObj [("input", JNum ti); ("output", JNum to)]))])
  /\ extractTokens
       (object [("result", field doc "response");
                ("session_id", field doc "session_id");
                ("token_usage", Some (JObj [("input", JNum ti); ("output", JNum to)]))])
       Gemini
     = Ok {| input := JNum ti; output := JNum to |}.
Proof.
  intros Hparse Hstats Hmodels Htotal _ _ _ Hslice.
  assert (Hdoc : doc <> JNull) by (intros ->; discriminate).
  assert (Hs : stats <> JNull) by (intros ->; discriminate).
  assert (Hst : truthy (Some stats) = true)
    by (destruct stats; try discriminate; reflexivity).
  split.
  - unfold on_close. cbn [exited_zero Z.eqb negb structured].
    unfold gemini_try, parse_json. rewrite Hparse. run_monad.
    rewrite !(get_field doc _ Hdoc), Hstats, Hst, (get_field stats _ Hs), Hmodels.
    cbn [truthy the object_values].
    rewrite (gemini_models_sum _ 0 0 ti to Htotal). cbn [fst snd Z.add].
    unfold has_slice in Hslice. unfold slice.
    destruct (js_or (field doc "response") (Some (JStr ""))) as [[]|];
      try discriminate; reflexivity.
  - unfold extractTokens. run_monad.
    destruct (field doc "response"), (field doc "session_id"); cbn;
      unfold js_or; cbn; destruct (ti =? 0) eqn:Ei, (to =? 0) eqn:Eo; cbn;
      try apply Z.eqb_eq in Ei; try apply Z.eqb_eq in Eo; subst; reflexivity.
Qed.

(** ** Further facts about the request handlers *)

Lemma options_for_body (p : agent) (fields : list (string * json)) (cv : conv) :
  options_for p (Some (JObj fields)) cv = Ok (options_of p (JObj fields) (sessionId cv)).
Proof. destruct p; reflexivity. Qed.

Lemma slice_has_slice (v : value) (n : nat) :
  truthy v = true -> has_slice v = true -> exists w, slice v n = Ok w.
Proof.
  unfold has_slice, js_or. intros -> H.
  destruct v as [[]|]; try discriminate; cbn; eauto.
Qed.

(** A request that passes the checks and names a stored conversation whose
    guard lets it through: the adapter of [p] is called on that
    conversation with the stored session id, and the store is only given
    the provider when the entry had none. *)
Lemma ask_begin_existing (h : host) (data : string) (ss : gmap string conv)
    (body : json) (p : agent) (id : string) (cv : conv) :
  JSON_parse data = Some body ->
  passes_checks h body p ->
  names body id ->
  ss !! id = Some cv ->
  (0 <? turns cv) && truthy (provider cv)
    && negb (is_string (provider cv) (agent_key p)) = false ->
  ask_begin h data ss
  = (Ok (Await (call_of p body (sessionId cv) id)),
     if truthy (provider cv) then ss else alter (set_provider p) id ss).
Proof.
  intros Hparse (Hprompt & Hslice & Hagent & Hbin) (Hcid & Hid) Hcv Hguard.
  destruct body as [| | | | |fields]; try discriminate. cbn [field] in *.
  assert (Hhas : has ss (Some (JStr id)) = true).
  { cbn [has]. apply bool_decide_eq_true. rewrite Hcv. eauto. }
  destruct (slice_has_slice _ 80 Hprompt Hslice) as [w Hw].
  unfold ask_begin, readBody. run_monad.
  rewrite Hparse. cbn [get]. rewrite Hprompt, Hcid, Hagent, Hbin. cbn [negb truthy].
  rewrite Hid, Hhas. cbn [negb orb text to_string]. rewrite Hcv, Hguard.
  destruct (truthy (provider cv)) eqn:Hprov; cbn [negb];
    rewrite Hw, options_for_body; reflexivity.
Qed.

(** A request that passes the checks and names no stored conversation
    (no id, a falsy one, or one that is not in the store). *)
Lemma ask_begin_new (h : host) (data : string) (ss : gmap string conv)
    (body : json) (p : agent) :
  JSON_parse data = Some body ->
  passes_checks h body p ->
  truthy (field body "conversationId") && has ss (field body "conversationId") = false ->
  ask_begin h data ss
  = (Ok (Await (call_of p body (Some JNull) (new_id h))),
     <[new_id h := fresh h p]> ss).
Proof.
  intros Hparse (Hprompt & Hslice & Hagent & Hbin) Hunknown.
  assert (Hbody : body <> JNull).
  { intros ->. cbn in Hprompt. discriminate. }
  destruct (slice_has_slice _ 80 Hprompt Hslice) as [w Hw].
  assert (Hcreate : negb (truthy (field body "conversationId"))
                    || negb (has ss (field body "conversationId")) = true).
  { rewrite <- negb_andb, Hunknown. reflexivity. }
  unfold ask_begin, readBody. run_monad.
  rewrite Hparse, !(get_field body _ Hbody), Hprompt, Hagent, Hbin. cbn [negb].
  rewrite Hcreate, lookup_insert_eq.
  cbn [fresh turns provider Z.ltb Z.compare andb truthy nonempty negb].
  assert (Hkey : nonempty (agent_key p) = true) by (destruct p; reflexivity).
  rewrite Hkey. cbn [negb]. rewrite Hw.
  destruct body; try contradiction; try discriminate.
  rewrite options_for_body. reflexivity.
Qed.



Lemma one_name_only (v : value) (x y : string) :
  is_string v x = true -> x <> y -> is_string v y = false.
Proof.
  destruct v as [[]|]; cbn; try discriminate.
  intros Hx Hxy. apply String.eqb_eq in Hx. subst. apply String.eqb_neq. exact Hxy.
Qed.

(** X8. POST /new never fails, whatever its body: it answers 200 with the
    id [conv_<now>] and the agent [p] of the conversation, and stores
    under that id an entry for [p] with no turn and no session id; every
    other entry is untouched.  The agent is codex when the body asks for
    exactly "codex", gemini when it asks for exactly "gemini", and claude
    otherwise: for a body that is not JSON and for any other provider. *)
Theorem new_conversation_always_created (h : host) (data : string) (ss : gmap string conv) :
  exists p,
    new_conversation h data ss
    = (Ok (Send 200 (JObj [("conversationId", JStr (new_id h));
                           ("provider", JStr (agent_key p))])),
       <[new_id h := fresh h p]> ss)
    /\ <[new_id h := fresh h p]> ss !! new_id h
       = Some {| sessionId := Some JNull; turns := 0; created := iso h;
                 provider := Some (JStr (agent_key p)) |}
    /\ (forall id, id <> new_id h -> <[new_id h := fresh h p]> ss !! id = ss !! id)
    /\ (JSON_parse data = None -> p = Claude)
    /\ (forall body, JSON_parse data = Some body ->
        is_string (field body "provider") "codex" = false ->
        is_string (field body "provider") "gemini" = false ->
        p = Claude)
    /\ (forall body, JSON_parse data = Some body ->
        is_string (field body "provider") "codex" = true ->
        p = Codex)
    /\ (forall body, JSON_parse data = Some body ->
        is_string (field body "provider") "gemini" = true ->
        p = Gemini).
Proof.
  unfold new_conversation, readBody. run_monad.
  destruct (JSON_parse data) as [body|] eqn:Hparse.
  - match goal with
    | |- context [is_string ?r "codex"] =>
      assert (Hread : r = field body "provider") by (destruct body; reflexivity);
        rewrite Hread
    end.
    exists (if is_string (field body "provider") "codex" then Codex
            else if is_string (field body "provider") "gemini" then Gemini else Claude).
    split; [reflexivity|]. split; [apply lookup_insert_eq|].
    split; [intros id Hid; apply lookup_insert_ne; congruence|].
    split; [discriminate|].
    split; [intros body' [= <-] -> ->; reflexivity|].
    split; [intros body' [= <-] ->; reflexivity|].
    intros body' [= <-] Hgemini.
    rewrite (one_name_only _ "gemini" "codex" Hgemini) by discriminate.
    rewrite Hgemini. reflexivity.
  - exists Claude. split; [reflexivity|]. split; [apply lookup_insert_eq|].
    split; [intros id Hid; apply lookup_insert_ne; congruence|].
    split; [reflexivity|]. repeat split; intros body' Hbody'; discriminate.
Qed.

(** X9. A /ask request without a usable body or prompt is refused before
    anything is touched: a body that is not JSON answers 500 "Invalid JSON
    body", the body [null] answers 500 with the engine's TypeError, any
    other body without a truthy prompt answers 400; in each case no
    adapter is called and the store is unchanged. *)
Theorem malformed_request_changes_nothing (h : host) (adapter : call -> settlement)
    (data : string) (ss : gmap string conv) :
  (JSON_parse data = None ->
   ask h adapter data ss = (Ok (SendError 500 (Error "Invalid JSON body"), None), ss))
  /\ (JSON_parse data = Some JNull ->
      ask h adapter data ss = (Ok (SendError 500 TypeError, None), ss))
  /\ (forall body, JSON_parse data = Some body -> body <> JNull ->
      truthy (field body "prompt") = false ->
      ask h adapter data ss
      = (Ok (SendError 400 (Error "Missing 'prompt' field"), None), ss)).
Proof.
  unfold ask, ask_begin, readBody. run_monad.
  split; [intros ->; reflexivity|].
  split; [intros ->; reflexivity|].
  intros body -> Hbody Hprompt.
  rewrite (get_field body _ Hbody), Hprompt. reflexivity.
Qed.

(** X10. A /ask request for an agent that cannot serve is refused with
    status 400 before the conversation is looked up or created: a provider
    that is not one of the three names (a missing or falsy one counts as
    claude), or one whose binary is not on the host. *)
Theorem unusable_provider_is_refused (h : host) (adapter : call -> settlement)
    (data : string) (ss : gmap string conv) (body : json) :
  JSON_parse data = Some body ->
  truthy (field body "prompt") = true ->
  (agent_of (js_or (field body "provider") (Some (JStr "claude"))) = None ->
   ask h adapter data ss
   = (Ok (SendError 400 (Error "Invalid provider. Must be 'claude', 'codex', or 'gemini'"),
          None), ss))
  /\ (forall p message,
      agent_of (js_or (field body "provider") (Some (JStr "claude"))) = Some p ->
      missing_binary h p = Some message ->
      ask h adapter data ss = (Ok (SendError 400 (Error message), None), ss))
  /\ (truthy (field body "provider") = false ->
      agent_of (js_or (field body "provider") (Some (JStr "claude"))) = Some Claude).
Proof.
  intros Hparse Hprompt.
  assert (Hbody : body <> JNull) by (intros ->; discriminate).
  unfold ask, ask_begin, readBody. run_monad.
  rewrite Hparse, !(get_field body _ Hbody), Hprompt. cbn [negb].
  split; [intros ->; reflexivity|]. split.
  - intros p message -> ->. reflexivity.
  - intros Hnone. unfold js_or. rewrite Hnone. reflexivity.
Qed.

Lemma ask_end_replies (c : call) (s : settlement) (ss1 : gmap string conv) :
  exists r, fst (ask_end c s ss1) = Ok r.
Proof.
  unfold ask_end. run_monad.
  destruct s as [result|e]; [|eauto].
  destruct (get (Some result) "session_id"); [|eauto].
  destruct (alter _ _ ss1 !! conversation c); [|eauto].
  destruct (extractTokens result (callee c)); [|eauto].
  destruct (get (Some result) "result"); [|eauto].
  destruct (get (Some result) "duration_ms"); eauto.
Qed.

Lemma ask_await (h : host) (adapter : call -> settlement) (data : string)
    (ss ss1 : gmap string conv) (c : call) :
  ask_begin h data ss = (Ok (Await c), ss1) ->
  snd (ask h adapter data ss) = snd (ask_end c (adapter c) ss1)
  /\ exists r, fst (ask h adapter data ss) = Ok (r, Some c).
Proof.
  intros Hbegin. destruct (ask_end_replies c (adapter c) ss1) as [r Hr].
  unfold ask. run_monad. rewrite Hbegin.
  destruct (ask_end c (adapter c) ss1) as [[r'|e] ss2]; cbn in Hr; [|discriminate].
  injection Hr as ->. split; [reflexivity|eauto].
Qed.

(** X11. A request that names no stored conversation (no id, or an id the
    store does not have) is not an error: a conversation is created under
    [conv_<now>] for the agent asked for, the adapter is called without a
    session id to resume, and a successful call leaves that conversation
    with one turn and the session id of the result. *)
Theorem unknown_conversation_starts_fresh (h : host) (adapter : call -> settlement)
    (data : string) (ss : gmap string conv) (body result : json) (p : agent) :
  JSON_parse data = Some body ->
  passes_checks h body p ->
  truthy (field body "conversationId") && has ss (field body "conversationId") = false ->
  adapter (call_of p body (Some JNull) (new_id h)) = Resolve result ->
  result <> JNull ->
  (exists r, fst (ask h adapter data ss)
             = Ok (r, Some (call_of p body (Some JNull) (new_id h))))
  /\ snd (ask h adapter data ss)
     = <[new_id h := {| sessionId := if truthy (field result "session_id")
                                     then field result "session_id" else Some JNull;
                        turns := 1; created := iso h;
                        provider := Some (JStr (agent_key p)) |}]> ss.
Proof.
  intros Hparse Hchecks Hunknown Hadapter Hresult.
  pose proof (ask_begin_new h data ss body p Hparse Hchecks Hunknown) as Hbegin.
  destruct (ask_await h adapter data ss _ _ Hbegin) as [Hstore Hreply].
  split; [exact Hreply|].
  rewrite Hstore, Hadapter, (successful_call_records_turn _ _ _ Hresult).
  cbn [call_of conversation]. rewrite alter_insert_eq. reflexivity.
Qed.

(** X12. A prompt that is truthy but has no [slice] method (a number,
    [true], an object) is not refused by the checks: the request fails
    with status 500 on the preview computed for the log, without calling
    an adapter, and after the conversation it asked to start was already
    put in the store. *)
Theorem prompt_without_slice_fails_late (h : host) (adapter : call -> settlement)
    (data : string) (ss : gmap string conv) (body : json) (p : agent) :
  JSON_parse data = Some body ->
  truthy (field body "prompt") = true ->
  has_slice (field body "prompt") = false ->
  agent_of (js_or (field body "provider") (Some (JStr "claude"))) = Some p ->
  missing_binary h p = None ->
  truthy (field body "conversationId") && has ss (field body "conversationId") = false ->
  ask h adapter data ss
  = (Ok (SendError 500 TypeError, None), <[new_id h := fresh h p]> ss).
Proof.
  intros Hparse Hprompt Hslice Hagent Hbin Hunknown.
  assert (Hbody : body <> JNull) by (intros ->; discriminate).
  assert (Hcreate : negb (truthy (field body "conversationId"))
                    || negb (has ss (field body "conversationId")) = true).
  { rewrite <- negb_andb, Hunknown. reflexivity. }
  assert (Hthrow : slice (field body "prompt") 80 = Throw TypeError).
  { unfold has_slice, js_or in Hslice. rewrite Hprompt in Hslice.
    destruct (field body "prompt") as [[]|]; try discriminate; reflexivity. }
  assert (Hkey : nonempty (agent_key p) = true) by (destruct p; reflexivity).
  unfold ask, ask_begin, readBody. run_monad.
  rewrite Hparse, !(get_field body _ Hbody), Hprompt, Hagent, Hbin. cbn [negb].
  rewrite Hcreate, lookup_insert_eq.
  cbn [fresh turns provider Z.ltb Z.compare andb truthy nonempty negb].
  rewrite Hkey. cbn [negb]. rewrite Hthrow. reflexivity.
Qed.

(** X13. Session continuity: after a successful turn on a conversation
    pinned to [p], the next request for [p] on that conversation calls the
    adapter with the session id the previous result returned, or with the
    one stored before when the result carried none; the turn has been
    counted once. *)
Theorem next_turn_resumes_returned_session (h h' : host) (adapter : call -> settlement)
    (data data' : string) (ss : gmap string conv) (body body' result : json)
    (p : agent) (id : string) (cv : conv) :
  JSON_parse data = Some body -> passes_checks h body p -> names body id ->
  JSON_parse data' = Some body' -> passes_checks h' body' p -> names body' id ->
  ss !! id = Some cv ->
  provider cv = Some (JStr (agent_key p)) ->
  adapter (call_of p body (sessionId cv) id) = Resolve result ->
  result <> JNull ->
  snd (ask h adapter data ss) !! id
  = Some (record_turn (field result "session_id") cv)
  /\ ask_begin h' data' (snd (ask h adapter data ss))
     = (Ok (Await (call_of p body'
                     (if truthy (field result "session_id")
                      then field result "session_id" else sessionId cv) id)),
        snd (ask h adapter data ss)).
Proof.
  intros Hparse Hchecks Hnames Hparse' Hchecks' Hnames' Hcv Hprov Hadapter Hresult.
  assert (Hkey : is_string (Some (JStr (agent_key p))) (agent_key p) = true).
  { cbn. apply String.eqb_refl. }
  assert (Htruthy : truthy (Some (JStr (agent_key p))) = true)
    by (destruct p; reflexivity).
  assert (Hguard : forall n, (0 <? n) && truthy (provider cv)
                             && negb (is_string (provider cv) (agent_key p)) = false).
  { intros n. rewrite Hprov, Hkey. cbn [negb]. apply andb_false_r. }
  pose proof (ask_begin_existing h data ss body p id cv Hparse Hchecks Hnames Hcv
                (Hguard _)) as Hbegin.
  rewrite Hprov, Htruthy in Hbegin.
  destruct (ask_await h adapter data ss _ _ Hbegin) as [Hstore _].
  rewrite Hadapter, (successful_call_records_turn _ _ _ Hresult) in Hstore.
  cbn [call_of conversation] in Hstore.
  assert (Hturn : snd (ask h adapter data ss) !! id
                  = Some (record_turn (field result "session_id") cv)).
  { rewrite Hstore, lookup_alter_eq, Hcv. reflexivity. }
  split; [exact Hturn|].
  pose proof (ask_begin_existing h' data' _ body' p id _ Hparse' Hchecks' Hnames' Hturn)
    as Hnext.
  cbn [record_turn turns provider sessionId] in Hnext.
  rewrite Hprov, Htruthy, Hkey in Hnext.
  apply Hnext. cbn [negb]. apply andb_false_r.
Qed.


(** X15. No /ask request removes a conversation or takes a turn back:
    whatever the request and however the call ends, a stored conversation
    is still stored afterwards, with its turn count unchanged or one
    higher. *)
Theorem ask_never_drops_a_conversation (h : host) (adapter : call -> settlement)
    (data : string) (ss : gmap string conv) (id : string) (cv0 : conv) :
  ss !! id = Some cv0 ->
  id <> new_id h ->
  exists cv, snd (ask h adapter data ss) !! id = Some cv
             /\ turns cv0 <= turns cv <= turns cv0 + 1.
Proof.
  intros Hid Hfresh. unfold ask. run_monad.
  destruct (ask_begin h data ss) as [ph ss1] eqn:Hbegin.
  destruct (ask_begin_store h data ss ss1 ph id cv0 Hbegin Hid Hfresh)
    as (cv1 & Hcv1 & Hturns & _).
  destruct ph as [[r|c]|e]; cbn [snd]; try (exists cv1; split; [exact Hcv1|lia]).
  destruct (ask_end c (adapter c) ss1) as [r2 ss2] eqn:Hend.
  assert (Hss2 : ss2 = snd (ask_end c (adapter c) ss1)) by (rewrite Hend; reflexivity).
  assert (Hgoal : exists cv, ss2 !! id = Some cv /\ turns cv0 <= turns cv <= turns cv0 + 1).
  { destruct (ask_end_store c (adapter c) ss1) as [Hsame|[session_id Hturn]].
    - rewrite Hss2, Hsame. exists cv1. split; [exact Hcv1|lia].
    - rewrite Hss2, Hturn.
      destruct (decide (conversation c = id)) as [->|Hne].
      + rewrite lookup_alter_eq, Hcv1. cbn. eexists. split; [reflexivity|].
        cbn [record_turn turns]. lia.
      + rewrite lookup_alter_ne by exact Hne. exists cv1. split; [exact Hcv1|lia]. }
  destruct r2; exact Hgoal.
Qed.

(** ** Facts about the log queue *)

Lemma join_as_lines (x : string) (rest : list string) :
  join (String newline "") (x :: rest) ++ String newline "" = as_lines (x :: rest).
Proof.
  revert x. induction rest as [|y rest IH]; intros x.
  - cbn. rewrite append_empty. reflexivity.
  - change (join (String newline "") (x :: y :: rest))
      with (x ++ String newline "" ++ join (String newline "") (y :: rest)).
    rewrite !append_assoc, IH. unfold as_lines. cbn [map concat_text fold_right].
    rewrite !append_assoc. reflexivity.
Qed.

Lemma as_lines_app (l1 l2 : list string) :
  as_lines (l1 ++ l2) = as_lines l1 ++ as_lines l2.
Proof.
  unfold as_lines. induction l1 as [|x l1 IH]; [reflexivity|].
  cbn [app map concat_text fold_right].
  fold (concat_text (map (fun l => l ++ String newline "") (l1 ++ l2))).
  fold (concat_text (map (fun l => l ++ String newline "") l1)).
  rewrite IH, !append_assoc. reflexivity.
Qed.

Lemma log_step_held (st : logger) (e : log_event) :
  consistent st ->
  no_failed_append e ->
  consistent (log_step st e)
  /\ held (log_step st e) = held st ++ as_lines (logged_lines [e]).
Proof.
  unfold consistent, held. intros Hst Hok.
  destruct st as [queue flag batch file].
  cbn [logQueue isWritingLog writing log_file] in Hst. subst flag.
  destruct e as [ts level msg data| |[|]]; cbn [log_step logged_lines] in *;
    try contradiction; change (as_lines []) with ""; rewrite ?append_empty.
  - unfold log. cbn [logQueue isWritingLog writing log_file].
    split; [reflexivity|]. rewrite as_lines_app, !append_assoc. reflexivity.
  - unfold writeLogsToFile. cbn [logQueue isWritingLog writing log_file].
    destruct queue as [|x queue]; destruct batch as [lines|];
      cbn [List.length Nat.eqb orb is_Some_b logQueue isWritingLog writing log_file];
      (split; [reflexivity|]); try reflexivity.
    rewrite join_as_lines. change (as_lines []) with "".
    rewrite append_empty. reflexivity.
  - unfold appendFile_done. cbn [logQueue isWritingLog writing log_file].
    destruct batch as [lines|];
      cbn [logQueue isWritingLog writing log_file is_Some_b];
      (split; [reflexivity|]); rewrite ?append_assoc; reflexivity.
Qed.

(** X16. No log line is lost, written twice or reordered: over any run of
    [log] calls, flushes and completed appends that do not fail, the file
    followed by the batch being written and by the queue is what it was
    at the start followed by every logged line, in order, each on a line
    of its own. *)
Theorem log_lines_are_kept_in_order (events : list log_event) (st : logger) :
  consistent st ->
  Forall no_failed_append events ->
  consistent (fold_left log_step events st)
  /\ held (fold_left log_step events st) = held st ++ as_lines (logged_lines events).
Proof.
  intros Hst Hok. revert st Hst.
  induction Hok as [|e events He _ IH]; intros st Hst.
  - cbn. change (as_lines []) with "". rewrite append_empty. auto.
  - cbn [fold_left].
    destruct (log_step_held st e Hst He) as [Hst' Hheld].
    destruct (IH _ Hst') as [Hfinal Hall]. split; [exact Hfinal|].
    rewrite Hall, Hheld, append_assoc. f_equal.
    destruct e; cbn [logged_lines]; try reflexivity.
    change (JSON_stringify (log_entry ts level msg data) :: logged_lines events)
      with ([JSON_stringify (log_entry ts level msg data)] ++ logged_lines events)%list.
    rewrite as_lines_app. reflexivity.
Qed.


(** ** Facts about /providers and /discuss *)

(** X18. /providers and /ask agree: an agent is reported available
    exactly when /ask does not refuse it for a missing binary, the warning
    of an unavailable one is the very error /ask answers with, claude is
    always reported available, and a discussion is reported possible
    exactly when codex or gemini is installed. *)
Theorem providers_agree_with_ask (h : host) (p : agent) :
  exists listing,
    providers h = Send 200 listing
    /\ field (the (field (the (field listing "providers")) (agent_key p))) "available"
       = Some (JBool (negb (is_Some_b (missing_binary h p))))
    /\ field (the (field (the (field listing "providers")) (agent_key p))) "warning"
       = JStr <$> missing_binary h p
    /\ field listing "discussionAvailable"
       = Some (JBool (codex_found h || gemini_found h)).
Proof.
  eexists. split; [reflexivity|].
  destruct h as [t i [|] [|]], p; repeat split; reflexivity.
Qed.

Lemma encode_fields (msg : message) :
  encode msg <> JNull
  /\ field (encode msg) "role" = JStr <$> Transcript.role msg
  /\ field (encode msg) "provider" = JStr <$> Transcript.provider msg
  /\ field (encode msg) "content" = Some (JStr (Transcript.content msg)).
Proof.
  destruct msg as [[r|] [p|] c]; repeat split; try discriminate; reflexivity.
Qed.

Lemma see_encode (target : string) (msg : message) (seen : list string) :
  see target (encode msg) seen
  = (Ok tt,
     match Transcript.provider msg, speaker msg with
     | Some p, Some name => if negb (String.eqb p target) then add name seen else seen
     | _, _ => seen
     end).
Proof.
  destruct (encode_fields msg) as (Hnot & _ & Hprovider & _).
  unfold see, speaker. run_monad. rewrite (get_field _ _ Hnot), Hprovider.
  destruct (Transcript.provider msg) as [p|]; [|reflexivity].
  cbn [fmap option_fmap option_map truthy is_string the to_string].
  destruct (nonempty p); [|reflexivity]. cbn [andb].
  destruct (String.eqb p target); cbn [negb]; [destruct (nameMap_get p); reflexivity|].
  destruct (nameMap_get p); reflexivity.
Qed.

Lemma say_encode (msg : message) (t : string) :
  say (encode msg) t = (Ok tt, t ++ render msg).
Proof.
  destruct (encode_fields msg) as (Hnot & Hrole & Hprovider & Hcontent).
  unfold say, render, speaker. run_monad.
  rewrite !(get_field _ _ Hnot), Hrole, Hprovider, Hcontent.
  destruct (Transcript.role msg) as [r|];
    cbn [fmap option_fmap option_map is_string];
    try destruct (String.eqb r "user"); try reflexivity;
    destruct (Transcript.provider msg) as [p|];
    cbn [fmap option_fmap option_map truthy the to_string];
    rewrite ?append_empty; try reflexivity;
    destruct (nonempty p); rewrite ?append_empty; try reflexivity;
    destruct (nameMap_get p); rewrite ?append_empty; reflexivity.
Qed.

Lemma seen_encoded (target : string) (history : list message) (seen : list string) :
  run_loop (map encode history) (see target) seen
  = Ok (fold_left
          (fun seen msg =>
             match Transcript.provider msg, speaker msg with
             | Some p, Some name => if negb (String.eqb p target) then add name seen else seen
             | _, _ => seen
             end)
          history seen).
Proof.
  unfold run_loop. revert seen. induction history as [|msg rest IH]; intros seen;
    [reflexivity|].
  cbn [map for_each fold_left]. unfold bind at 1. rewrite see_encode. apply IH.
Qed.

Lemma said_encoded (history : list message) (t : string) :
  run_loop (map encode history) say t
  = Ok (fold_left (fun acc msg => acc ++ render msg) history t).
Proof.
  unfold run_loop. revert t. induction history as [|msg rest IH]; intros t;
    [reflexivity|].
  cbn [map for_each fold_left]. unfold bind at 1. rewrite say_encode. apply IH.
Qed.

Lemma addressees_encoded (target : string) (l : list string) :
  map addressee (List.filter (fun p => negb (is_string (Some p) target)) (map JStr l))
  = map display (List.filter (fun q => negb (String.eqb q target)) l).
Proof.
  induction l as [|q l IH]; [reflexivity|].
  cbn [map List.filter].
  change (is_string (Some (JStr q)) target) with (String.eqb q target).
  destruct (String.eqb q target); cbn [negb]; [exact IH|].
  cbn [map]. rewrite IH. f_equal;
    unfold addressee, display; cbn [to_string]; destruct (nameMap_get q); reflexivity.
Qed.

Lemma prompt_of_encoded (history : list message) (target : string)
    (participants : option (list string)) :
  formatDiscussionPrompt_json (map encode history) target (encode_list participants)
  = Ok (formatDiscussionPrompt history target participants).
Proof.
  unfold formatDiscussionPrompt_json, formatDiscussionPrompt, otherNames, transcript.
  cbn [mbind js_mbind js_bind].
  rewrite said_encoded.
  assert (Hseen : run_loop (map encode history) (see target) []
                  = Ok (seen_in history target)) by apply seen_encoded.
  destruct participants as [[|p ps]|]; cbn [encode_list fmap option_fmap option_map
                                            truthy the has_entries map andb js_bind].
  - rewrite Hseen. cbn [js_bind]. destruct (seen_in history target); reflexivity.
  - change (JStr p :: map JStr ps) with (map JStr (p :: ps)).
    rewrite addressees_encoded. reflexivity.
  - rewrite Hseen. cbn [js_bind]. destruct (seen_in history target); reflexivity.
Qed.

(** X19. On a transcript whose entries are objects with string fields and
    a participant list that is absent or an array of strings, the function
    as it runs on the values of a request returns, without throwing, the
    prompt computed on the typed transcript; an empty array of
    participants gives the prompt of an absent list. *)
Theorem prompt_on_json_is_prompt_on_records (history : list message) (target : string)
    (participants : option (list string)) :
  formatDiscussionPrompt_json (map encode history) target (encode_list participants)
  = Ok (formatDiscussionPrompt history target participants)
  /\ formatDiscussionPrompt_json (map encode history) target (Some (JArr []))
     = Ok (formatDiscussionPrompt history target None).
Proof.
  split; [apply prompt_of_encoded|].
  exact (prompt_of_encoded history target (Some [])).
Qed.

Lemma say_total (msg : json) (t : string) :
  msg <> JNull -> exists t', say msg t = (Ok tt, t').
Proof.
  intros Hmsg. unfold say. run_monad. rewrite !(get_field _ _ Hmsg).
  destruct (is_string (field msg "role") "user"); [eauto|].
  destruct (truthy (field msg "provider")); [|eauto].
  destruct (nameMap_get _); eauto.
Qed.

Lemma say_null_throws (history : list json) (t : string) :
  In JNull history -> run_loop history say t = Throw TypeError.
Proof.
  unfold run_loop. revert t. induction history as [|msg rest IH]; intros t Hin;
    [contradiction|].
  cbn [for_each]. unfold bind at 1.
  destruct msg; try (destruct Hin as [Hin|Hin]; [discriminate|]);
    try reflexivity.
  all: match goal with
       | |- context [say ?m ?t0] =>
         destruct (say_total m t0 ltac:(discriminate)) as [t' ->]
       end; apply IH; exact Hin.
Qed.

Lemma see_throws_type_error (target : string) (l : list json) (seen : list string)
    (e : exn) :
  run_loop l (see target) seen = Throw e -> e = TypeError.
Proof.
  unfold run_loop. revert seen. induction l as [|msg rest IH]; intros seen;
    cbn [for_each]; [discriminate|].
  unfold bind at 1. unfold see at 1. run_monad.
  destruct msg; cbn [get]; try (intros [= <-]; reflexivity);
    repeat match goal with
           | |- context [if ?c then _ else _] => destruct c
           | |- context [match nameMap_get ?k with _ => _ end] =>
             destruct (nameMap_get k)
           end; apply IH.
Qed.

(** X20. An entry [null] in the transcript makes the function throw the
    engine's TypeError, whatever the other entries, the target and the
    participants; POST /discuss then answers 500 and calls no adapter. *)
Theorem null_entry_fails_the_discussion (h : host) (data : string) (body : json)
    (history : list json) (p : agent) :
  In JNull history ->
  (forall target participants,
      formatDiscussionPrompt_json history target participants = Throw TypeError)
  /\ (JSON_parse data = Some body ->
      field body "history" = Some (JArr history) ->
      agent_of (field body "provider") = Some p ->
      missing_binary h p = None ->
      discuss_begin h data = Answered (SendError 500 TypeError)).
Proof.
  intros Hnull.
  assert (Hprompt : forall target participants,
             formatDiscussionPrompt_json history target participants = Throw TypeError).
  { intros target participants. unfold formatDiscussionPrompt_json.
    unfold mbind, js_mbind, js_bind.
    rewrite (say_null_throws history "" Hnull).
    destruct (truthy participants && has_entries (the participants)).
    - destruct participants as [[]|]; reflexivity.
    - destruct (run_loop history (see target) []) as [seen|e] eqn:Hseen; [reflexivity|].
      rewrite (see_throws_type_error _ _ _ _ Hseen). reflexivity. }
  split; [exact Hprompt|].
  intros Hparse Hhistory Hagent Hbin.
  assert (Hbody : body <> JNull) by (intros ->; discriminate).
  unfold discuss_begin, readBody. rewrite Hparse.
  unfold mbind, js_mbind, js_bind.
  rewrite !(get_field body _ Hbody), Hhistory. cbn [truthy is_array negb orb].
  rewrite Hagent, Hbin. cbn [items_of]. rewrite Hprompt. reflexivity.
Qed.

(** X21. POST /discuss checks the transcript first and the provider next,
    and has no default provider: a body whose history is not an array is
    answered 400 "Missing 'history' array"; with an array, a provider that
    is not one of the three names, a missing one included, is answered 400
    as invalid, and one whose binary is missing is answered 400 with its
    path. *)
Theorem discuss_checks_history_then_provider (h : host) (data : string) (body : json) :
  JSON_parse data = Some body ->
  body <> JNull ->
  (is_array (field body "history") = false ->
   discuss_begin h data = Answered (SendError 400 (Error "Missing 'history' array")))
  /\ (is_array (field body "history") = true ->
      agent_of (field body "provider") = None ->
      discuss_begin h data
      = Answered (SendError 400
                    (Error "Invalid provider. Must be 'claude', 'codex', or 'gemini'")))
  /\ (is_array (field body "history") = true ->
      forall p message,
        agent_of (field body "provider") = Some p ->
        missing_binary h p = Some message ->
        discuss_begin h data = Answered (SendError 400 (Error message)))
  /\ agent_of undefined = None.
Proof.
  intros Hparse Hbody. unfold discuss_begin, readBody. rewrite Hparse.
  unfold mbind, js_mbind, js_bind. rewrite !(get_field body _ Hbody).
  split; [|split; [|split; [|reflexivity]]].
  - intros ->. rewrite orb_true_r. reflexivity.
  - intros Harray ->. rewrite Harray.
    destruct (field body "history") as [[]|]; try discriminate. reflexivity.
  - intros Harray p message -> ->. rewrite Harray.
    destruct (field body "history") as [[]|]; try discriminate. reflexivity.
Qed.

(** X22. A discussion is stateless: for a transcript of objects with
    string fields, POST /discuss calls the adapter of the agent asked for
    with the synthesized prompt and without any option, so the process is
    spawned with no resume argument, no model and no system prompt. *)
Theorem discussion_calls_without_session (h : host) (data : string) (body : json)
    (history : list message) (participants : option (list string)) (p : agent) :
  JSON_parse data = Some body ->
  field body "history" = Some (JArr (map encode history)) ->
  agent_of (field body "provider") = Some p ->
  missing_binary h p = None ->
  field body "participants" = encode_list participants ->
  discuss_begin h data
  = Asked {| speaker_asked := p;
             synthesized := formatDiscussionPrompt history (agent_key p) participants |}
  /\ discussion_args
       {| speaker_asked := p;
          synthesized := formatDiscussionPrompt history (agent_key p) participants |}
     = match p with
       | Claude =>
         [JStr "-p"; JStr (formatDiscussionPrompt history "claude" participants);
          JStr "--output-format"; JStr "json"]
       | Gemini =>
         [JStr "-o"; JStr "json";
          JStr (formatDiscussionPrompt history "gemini" participants); JStr "--yolo"]
       | Codex =>
         [JStr "exec"; JStr (formatDiscussionPrompt history "codex" participants);
          JStr "--json"; JStr "--full-auto"; JStr "--skip-git-repo-check"]
       end.
Proof.
  intros Hparse Hhistory Hagent Hbin Hlisted.
  assert (Hbody : body <> JNull) by (intros ->; discriminate).
  split; [|destruct p; reflexivity].
  unfold discuss_begin, readBody. rewrite Hparse.
  unfold mbind, js_mbind, js_bind.
  rewrite !(get_field body _ Hbody), Hhistory, Hagent, Hbin, Hlisted.
  cbn [truthy is_array negb orb items_of].
  destruct participants as [l|].
  - change (js_or (encode_list (Some l)) (Some (JArr []))) with (encode_list (Some l)).
    rewrite prompt_of_encoded. reflexivity.
  - change (js_or (encode_list None) (Some (JArr []))) with (encode_list (Some [])).
    rewrite prompt_of_encoded. reflexivity.
Qed.


(** ** Facts about the log listing *)

Lemma low_byte_is (c : ascii) (n : nat) :
  (nat_of_ascii c < 128)%nat -> (128 <= n)%nat -> byte_is c n = false.
Proof. intros Hc Hn. unfold byte_is. apply Nat.eqb_neq. lia. Qed.

Lemma space2_low_first (c d : ascii) : (nat_of_ascii c < 128)%nat -> space2 c d = false.
Proof. intros Hc. unfold space2. rewrite (low_byte_is c) by lia. reflexivity. Qed.

Lemma space2_low_last (c d : ascii) : (nat_of_ascii d < 128)%nat -> space2 c d = false.
Proof.
  intros Hd. unfold space2. rewrite (low_byte_is d) by lia. apply andb_false_r.
Qed.

Lemma space3_low_first (c d e : ascii) :
  (nat_of_ascii c < 128)%nat -> space3 c d e = false.
Proof. intros Hc. unfold space3. rewrite !(low_byte_is c) by lia. reflexivity. Qed.

Lemma space3_low_last (c d e : ascii) :
  (nat_of_ascii e < 128)%nat -> space3 c d e = false.
Proof.
  intros He. unfold space3. rewrite !(low_byte_is e) by lia.
  assert (Hle : Nat.leb 128 (nat_of_ascii e) = false) by (apply Nat.leb_gt; lia).
  assert (H168 : Nat.eqb (nat_of_ascii e) 168 = false) by (apply Nat.eqb_neq; lia).
  assert (H169 : Nat.eqb (nat_of_ascii e) 169 = false) by (apply Nat.eqb_neq; lia).
  assert (H175 : Nat.eqb (nat_of_ascii e) 175 = false) by (apply Nat.eqb_neq; lia).
  cbv zeta. rewrite Hle, H168, H169, H175. cbn [andb orb].
  rewrite !andb_false_r. reflexivity.
Qed.

(** A byte of ASCII that is no white space stops the stripping. *)
Lemma strip_keeps (back : bool) (c : ascii) (s : string) :
  (nat_of_ascii c < 128)%nat -> space1 c = false ->
  strip back (String c s) = String c s.
Proof.
  intros Hc Hspace. cbn [strip]. rewrite Hspace.
  destruct s as [|d s2]; [reflexivity|].
  assert (H2 : (if back then space2 d c else space2 c d) = false).
  { destruct back; [apply space2_low_last | apply space2_low_first]; exact Hc. }
  rewrite H2. destruct s2 as [|e s3]; [reflexivity|].
  assert (H3 : (if back then space3 e d c else space3 c d e) = false).
  { destruct back; [apply space3_low_last | apply space3_low_first]; exact Hc. }
  rewrite H3. reflexivity.
Qed.

Lemma list_ascii_of_append (x y : string) :
  list_ascii_of_string (x ++ y) = (list_ascii_of_string x ++ list_ascii_of_string y)%list.
Proof.
  induction x as [|c x IH]; [reflexivity|].
  rewrite append_cons. cbn [list_ascii_of_string]. rewrite IH. reflexivity.
Qed.

Lemma string_of_list_app (k l : list ascii) :
  string_of_list_ascii (k ++ l) = string_of_list_ascii k ++ string_of_list_ascii l.
Proof.
  induction k as [|c k IH]; [reflexivity|].
  cbn [app string_of_list_ascii]. rewrite IH, append_cons. reflexivity.
Qed.

Lemma reverse_append (x y : string) :
  reverse_string (x ++ y) = reverse_string y ++ reverse_string x.
Proof.
  unfold reverse_string. rewrite list_ascii_of_append, rev_app_distr.
  apply string_of_list_app.
Qed.

Lemma reverse_reverse (x : string) : reverse_string (reverse_string x) = x.
Proof.
  unfold reverse_string.
  rewrite list_ascii_of_string_of_list_ascii, rev_involutive.
  apply string_of_list_ascii_of_string.
Qed.

Lemma starts_with_longer (x s t : string) :
  starts_with x s = true -> starts_with x (s ++ t) = true.
Proof.
  revert s. induction x as [|a x IH]; intros s H; [reflexivity|].
  destruct s as [|b s]; [discriminate|].
  rewrite append_cons. cbn [starts_with] in *.
  apply andb_true_iff in H as [Hab Hrest]. rewrite Hab, (IH _ Hrest). reflexivity.
Qed.

Lemma in_braces_join (x : string) (rest : list string) :
  Forall (fun l => in_braces l = true) (x :: rest) ->
  in_braces (join (String newline "") (x :: rest)) = true.
Proof.
  revert x. induction rest as [|y rest IH]; intros x Hall.
  - inversion Hall; assumption.
  - inversion Hall as [|? ? Hx Hrest]; subst.
    specialize (IH y Hrest).
    change (join (String newline "") (x :: y :: rest))
      with (x ++ String newline "" ++ join (String newline "") (y :: rest)).
    unfold in_braces in *.
    apply andb_true_iff in Hx as [Hopen _]. apply andb_true_iff in IH as [_ Hclose].
    rewrite (starts_with_longer _ _ _ Hopen), !reverse_append, !append_assoc.
    rewrite (starts_with_longer _ _ _ Hclose). reflexivity.
Qed.

(** [trim] takes the final line feed off a text in braces and nothing else. *)
Lemma trim_line_feed (text : string) :
  in_braces text = true -> trim (text ++ String newline "") = text.
Proof.
  unfold in_braces. intros H. apply andb_true_iff in H as [Hopen Hclose].
  destruct text as [|c text]; [discriminate|].
  cbn [starts_with] in Hopen. apply andb_true_iff in Hopen as [Hc _].
  apply Ascii.eqb_eq in Hc. subst c.
  unfold trim. rewrite append_cons, strip_keeps by (vm_compute; first [lia | reflexivity]).
  rewrite <- append_cons, reverse_append.
  change (reverse_string (String newline "")) with (String newline "").
  rewrite append_cons. change ("" ++ ?x) with x.
  destruct (reverse_string (String "{" text)) as [|d back] eqn:Hback; [discriminate|].
  cbn [starts_with] in Hclose. apply andb_true_iff in Hclose as [Hd _].
  apply Ascii.eqb_eq in Hd. subst d.
  change (strip true (String newline (String "}" back)))
    with (strip true (String "}" back)).
  rewrite strip_keeps by (vm_compute; first [lia | reflexivity]).
  rewrite <- Hback. apply reverse_reverse.
Qed.

Lemma split_single_line (x : string) : single_line x = true -> split_lines x = [x].
Proof.
  induction x as [|c x IH]; intros H; [reflexivity|].
  cbn [single_line] in H. apply andb_true_iff in H as [Hc Hx].
  cbn [split_lines]. rewrite (negb_true_iff _) in Hc. rewrite Hc, (IH Hx). reflexivity.
Qed.

Lemma split_after_line (x rest : string) :
  single_line x = true ->
  split_lines (x ++ String newline rest) = x :: split_lines rest.
Proof.
  induction x as [|c x IH]; intros H.
  - change ("" ++ String newline rest) with (String newline rest).
    cbn [split_lines]. rewrite Ascii.eqb_refl. reflexivity.
  - cbn [single_line] in H. apply andb_true_iff in H as [Hc Hx].
    rewrite append_cons. cbn [split_lines].
    rewrite (negb_true_iff _) in Hc. rewrite Hc, (IH Hx). reflexivity.
Qed.

Lemma split_join (x : string) (rest : list string) :
  Forall (fun l => single_line l = true) (x :: rest) ->
  split_lines (join (String newline "") (x :: rest)) = x :: rest.
Proof.
  revert x. induction rest as [|y rest IH]; intros x Hall.
  - inversion Hall; subst. apply split_single_line. assumption.
  - inversion Hall as [|? ? Hx Hrest]; subst.
    change (join (String newline "") (x :: y :: rest))
      with (x ++ String newline "" ++ join (String newline "") (y :: rest)).
    rewrite append_cons. change ("" ++ ?t) with t.
    rewrite (split_after_line _ _ Hx), (IH y Hrest). reflexivity.
Qed.

Lemma parse_printed (entries : list json) :
  Forall faithful entries ->
  mapM JSON_parse (map JSON_stringify entries) = Some entries.
Proof.
  induction 1 as [|e entries (_ & _ & He) _ IH]; [reflexivity|].
  cbn [map mapM]. rewrite He. cbn. rewrite IH. reflexivity.
Qed.

Lemma last_n_map {A B : Type} (f : A -> B) (n : nat) (l : list A) :
  last_n n (map f l) = map f (last_n n l).
Proof. unfold last_n. rewrite length_map, skipn_map. reflexivity. Qed.

Lemma last_n_length {A : Type} (n : nat) (l : list A) :
  (List.length (last_n n l) <= n)%nat.
Proof. unfold last_n. rewrite length_skipn. lia. Qed.

(** The text of a log file that holds the lines of [entries] is read back
    as the last fifty of them. *)
Lemma view_printed (entries : list json) :
  entries <> [] ->
  Forall faithful entries ->
  view_logs (Some (as_lines (map JSON_stringify entries)))
  = Send 200 (JObj [("logs", JArr (last_n 50 entries))]).
Proof.
  intros Hsome Hall. destruct entries as [|e entries]; [contradiction|].
  unfold view_logs. cbn [map]. rewrite <- join_as_lines.
  rewrite trim_line_feed.
  2:{ apply in_braces_join. change (Forall (fun l => in_braces l = true)
                                      (map JSON_stringify (e :: entries))).
      apply Forall_map. eapply Forall_impl; [exact Hall|].
      intros x (_ & Hx & _). exact Hx. }
  rewrite split_join.
  2:{ change (Forall (fun l => single_line l = true)
                (map JSON_stringify (e :: entries))).
      apply Forall_map. eapply Forall_impl; [exact Hall|].
      intros x (Hx & _). exact Hx. }
  change (JSON_stringify e :: map JSON_stringify entries)
    with (map JSON_stringify (e :: entries)).
  rewrite last_n_map, parse_printed; [reflexivity|].
  unfold last_n. apply Forall_drop. exact Hall.
Qed.

(** X24. Round trip of the log, for entries that [JSON.stringify] prints
    on one line in braces and [JSON.parse] reads back: when the queue of a
    logger at rest holds the printed forms of [new] after the file
    received those of [old], one flush whose append succeeds makes
    [GET /logs] answer with the last fifty entries of [old ++ new], in the
    order logged, and never with more than fifty. *)
Theorem logs_show_what_was_logged (st : logger) (old new : list json) :
  isWritingLog st = false ->
  log_file st = as_lines (map JSON_stringify old) ->
  logQueue st = map JSON_stringify new ->
  new <> [] ->
  Forall faithful (old ++ new) ->
  view_logs (Some (log_file (appendFile_done true (writeLogsToFile st))))
  = Send 200 (JObj [("logs", JArr (last_n 50 (old ++ new)))])
  /\ (List.length (last_n 50 (old ++ new)) <= 50)%nat.
Proof.
  intros Hrest Hfile Hqueue Hnew Hall. split; [|apply last_n_length].
  destruct new as [|e new]; [contradiction|].
  unfold writeLogsToFile. rewrite Hrest, Hqueue. cbn [map List.length Nat.eqb orb].
  unfold appendFile_done. cbn [writing log_file].
  rewrite Hfile, join_as_lines.
  change (JSON_stringify e :: map JSON_stringify new)
    with (map JSON_stringify (e :: new)).
  rewrite <- as_lines_app, <- map_app.
  apply view_printed; [|exact Hall].
  destruct old; discriminate.
Qed.

(** X25. [GET /logs] answers with an empty listing when the log file cannot
    be read, and when one of its last fifty lines is not JSON, whatever the
    other lines hold. *)
Theorem unreadable_log_is_shown_empty (file : option string) :
  (file = None
   \/ exists logs bad,
        file = Some logs
        /\ In bad (last_n 50 (split_lines (trim logs)))
        /\ JSON_parse bad = None) ->
  view_logs file = Send 200 (JObj [("logs", JArr [])]).
Proof.
  intros [->|(logs & bad & -> & Hin & Hbad)]; [reflexivity|].
  unfold view_logs.
  destruct (mapM JSON_parse (last_n 50 (split_lines (trim logs)))) as [lines|] eqn:Hlines;
    [|reflexivity].
  apply mapM_Some in Hlines. apply list_elem_of_In in Hin.
  apply list_elem_of_lookup in Hin as [i Hi].
  destruct (Forall2_lookup_l _ _ _ i bad Hlines Hi) as (y & _ & Hy).
  congruence.
Qed.


(** ** The line parser on the lines of a text *)

Lemma split_lines_some (s : string) : split_lines s <> [].
Proof.
  destruct s as [|c s]; cbn [split_lines]; [discriminate|].
  destruct (Ascii.eqb c newline); [discriminate|].
  destruct (split_lines s); discriminate.
Qed.

Lemma split_lines_single (s : string) :
  Forall (fun l => single_line l = true) (split_lines s).
Proof.
  induction s as [|c s IH]; cbn [split_lines].
  - repeat constructor.
  - destruct (Ascii.eqb c newline) eqn:Hc.
    + constructor; [reflexivity | exact IH].
    + destruct (split_lines s) as [|piece more].
      * repeat constructor. cbn [single_line]. rewrite Hc. reflexivity.
      * inversion IH as [|? ? Hpiece Hmore]; subst.
        constructor; [|exact Hmore].
        cbn [single_line]. rewrite Hc, Hpiece. reflexivity.
Qed.

Lemma join_split_lines (s : string) : join (String newline "") (split_lines s) = s.
Proof.
  induction s as [|c s IH]; [reflexivity|].
  pose proof (split_lines_some s) as Hsome.
  cbn [split_lines]. destruct (Ascii.eqb c newline) eqn:Hc.
  - apply Ascii.eqb_eq in Hc. subst c.
    destruct (split_lines s) as [|piece more]; [contradiction|].
    change (join (String newline "") ("" :: piece :: more))
      with (String newline (join (String newline "") (piece :: more))).
    rewrite IH. reflexivity.
  - destruct (split_lines s) as [|piece more]; [contradiction|].
    destruct more as [|next more].
    + cbn [join] in *. rewrite IH. reflexivity.
    + change (join (String newline "") (String c piece :: next :: more))
        with (String c (join (String newline "") (piece :: next :: more))).
      rewrite IH. reflexivity.
Qed.

(** Every text has lines, and only those [split] finds. *)
Lemma lines_of_split (text : string) : lines_of text (split_lines text).
Proof.
  split; [apply split_lines_some|].
  split; [apply split_lines_single | apply join_split_lines].
Qed.

Lemma lines_of_unique (text : string) (lines : list string) :
  lines_of text lines -> split_lines text = lines.
Proof.
  intros (Hsome & Hsingle & <-).
  destruct lines as [|x rest]; [contradiction|].
  apply split_join. exact Hsingle.
Qed.

(** C5. For every output text, [parseCodexJSONL] returns the record the
    line protocol describes.  The text, trimmed, has lines, and however it
    is written as lines joined by line feeds, the events are its non-empty
    lines that parse: lines that do not parse are skipped and never make
    the call fail; the session id is the thread id of the last
    thread-started event that carries one; the result text is the text of
    the last completed agent message, the empty string when there is
    none; the usage is that of the last completed turn that carries one. *)
Theorem codex_jsonl_last_event_wins (out : string) :
  (exists lines, lines_of (trim out) lines)
  /\ forall lines,
       lines_of (trim out) lines ->
       parseCodexJSONL out
       = Ok {| p_sessionId := latest (omap thread_started (events_in lines)) JNull;
               p_result := latest (omap agent_message (events_in lines)) (JStr "");
               p_tokenUsage := latest (omap turn_completed (events_in lines)) JNull;
               p_aborted := existsb turn_aborted (events_in lines) |}.
Proof.
  split; [exists (split_lines (trim out)); apply lines_of_split|].
  intros lines Hlines. apply lines_of_unique in Hlines.
  unfold parseCodexJSONL, jsonl_lines. rewrite Hlines.
  rewrite codex_lines_fold, codex_events_latest.
  reflexivity.
Qed.


End Runtime.

(** ** Facts about the discussion prompt *)

Lemma transcript_from (history : list message) (acc : string) :
  fold_left (fun acc msg => acc ++ render msg) history acc
  = acc ++ concat_text (map render history).
Proof.
  revert acc. induction history as [|msg rest IH]; intros acc.
  - cbn. rewrite append_empty. reflexivity.
  - cbn [fold_left map concat_text fold_right]. rewrite IH, append_assoc. reflexivity.
Qed.

Lemma render_plain (msg : message) : plain msg -> render msg = entry_text msg.
Proof.
  destruct msg as [r p c]. unfold plain, render, entry_text, is_user, speaker, nameMap_get.
  cbn [Transcript.role Transcript.provider Transcript.content]. intros Hplain.
  destruct (match r with Some r0 => String.eqb r0 "user" | None => false end);
    [reflexivity|].
  destruct p as [p|]; [|reflexivity].
  rewrite Hplain. change (own p nameMap) with (known p).
  destruct p; [reflexivity|]. cbn [nonempty].
  destruct (known _); reflexivity.
Qed.

Lemma transcript_plain (history : list message) :
  Forall plain history ->
  transcript history = concat_text (map entry_text history).
Proof.
  intros Hplain. unfold transcript. rewrite transcript_from.
  change ("" ++ concat_text (map render history)) with (concat_text (map render history)).
  f_equal. induction Hplain as [|msg rest Hmsg _ IH]; [reflexivity|].
  cbn [map]. rewrite (render_plain msg Hmsg), IH. reflexivity.
Qed.

Lemma contains_after (x before s : string) :
  contains x s = true -> contains x (before ++ s) = true.
Proof.
  intros H. induction before as [|c before IH]; [exact H|].
  rewrite append_cons. cbn [contains]. rewrite IH. apply orb_true_r.
Qed.

(** C6, as amended. For every transcript (whose providers name no member
    of [Object.prototype]), target and participant list, the prompt
    contains the rendered transcript: in order, [[Human]: content] for an
    entry whose role is "user", [[Name]: content] for another entry whose
    provider is one of the three agents, each followed by a blank line,
    nothing for any other entry; and it ends by telling the target not to
    prefix its reply with its name.  For the transcript user "Topic?",
    claude "X", gemini "Y" and target "gemini", the prompt names Claude as
    the only other participant and contains the lines [[Human]: Topic?]
    and [[Claude]: X]. *)
Theorem discussion_prompt_renders_user_and_provider (history : list message)
    (target : string) (participants : option (list string)) :
  Forall plain history ->
  transcript history = concat_text (map entry_text history)
  /\ contains (transcript history)
       (formatDiscussionPrompt history target participants) = true
  /\ contains "Do not prefix your response with your name."
       (formatDiscussionPrompt history target participants) = true
  /\ otherNames roundtable "gemini" None = ["Claude"]
  /\ starts_with "You are Gemini in a roundtable discussion with Claude and a human moderator."
       (formatDiscussionPrompt roundtable "gemini" None) = true
  /\ contains ("[Human]: Topic?" ++ blank_line ++ "[Claude]: X" ++ blank_line)
       (formatDiscussionPrompt roundtable "gemini" None) = true.
Proof.
  intros Hplain. split; [apply transcript_plain; exact Hplain|].
  split.
  { unfold formatDiscussionPrompt. do 8 apply contains_after.
    apply (contains_append _ ""). }
  split.
  { unfold formatDiscussionPrompt. do 14 apply contains_after. reflexivity. }
  repeat split; vm_compute; reflexivity.
Qed.

Lemma known_other_exists (target : string) :
  map snd (List.filter (fun kv => negb (String.eqb (fst kv) target)) nameMap) <> [].
Proof.
  unfold nameMap. cbn [List.filter fst].
  destruct (String.eqb_spec "claude" target) as [<-|_]; cbn; discriminate.
Qed.

Lemma filter_empty_all {A} (f : A -> bool) (l : list A) :
  List.filter f l = [] <-> Forall (fun x => f x = false) l.
Proof.
  induction l as [|x l IH]; cbn [List.filter].
  - split; [constructor|reflexivity].
  - destruct (f x) eqn:Hx; split.
    + discriminate.
    + intros H. inversion H; congruence.
    + intros H. constructor; [exact Hx|apply IH, H].
    + intros H. inversion H; subst. apply IH. assumption.
Qed.

(** C7, as amended. Without a participant list (absent or empty) the
    other participants are never empty: they are the agents other than
    the target that speak in the transcript, and every other known agent
    when none does.  With a list that has an entry, they are the entries
    other than the target, under their display names, and there is no
    fallback: they are empty exactly when every entry is the target. *)
Theorem other_participants_fallback (history : list message) (target : string)
    (participants : list string) :
  otherNames history target None <> []
  /\ otherNames history target (Some []) <> []
  /\ (participants <> [] ->
      otherNames history target (Some participants)
      = map display (List.filter (fun q => negb (String.eqb q target)) participants))
  /\ (participants <> [] ->
      (otherNames history target (Some participants) = []
       <-> Forall (fun q => q = target) participants)).
Proof.
  assert (Hfallback : forall absent,
             match absent with Some (_ :: _) => False | _ => True end ->
             otherNames history target absent <> []).
  { intros absent Habsent. unfold otherNames.
    assert (Hscan : match seen_in history target with
                    | [] => map snd (List.filter
                                       (fun kv => negb (String.eqb (fst kv) target)) nameMap)
                    | names => names
                    end <> []).
    { destruct (seen_in history target); [apply known_other_exists|discriminate]. }
    destruct absent as [[|]|]; first [contradiction|exact Hscan]. }
  assert (Hlist : participants <> [] ->
                  otherNames history target (Some participants)
                  = map display (List.filter (fun q => negb (String.eqb q target)) participants)).
  { intros Hsome. destruct participants; [contradiction|reflexivity]. }
  split; [apply Hfallback; exact I|].
  split; [apply Hfallback; exact I|].
  split; [exact Hlist|].
  intros Hsome. rewrite (Hlist Hsome). split.
  - intros Hempty. apply map_eq_nil in Hempty. apply filter_empty_all in Hempty.
    eapply Forall_impl; [exact Hempty|]. cbn. intros q Hq.
    apply negb_false_iff, String.eqb_eq in Hq. exact Hq.
  - intros Hall.
    assert (Hnone : List.filter (fun q => negb (String.eqb q target)) participants = []).
    { apply filter_empty_all. eapply Forall_impl; [exact Hall|]. cbn. intros q ->.
      rewrite String.eqb_refl. reflexivity. }
    rewrite Hnone. reflexivity.
Qed.

(** ** Concrete runs *)

Example four_events_parsed :
  parseCodexJSONL RefJSON.parse four_events
  = Ok {| p_sessionId := JStr "t1"; p_result := JStr "B";
          p_tokenUsage := JObj [("input_tokens", JNum 3); ("output_tokens", JNum 4)];
          p_aborted := false |}.
Proof. vm_compute. reflexivity. Qed.

(** C10, the claim as stated fails: on a zero exit with this output,
    [callCodex] takes the raw-output branch. *)
Lemma codex_fallback_reached :
  codex_try RefJSON.parse numeric_message = Throw TypeError
  /\ on_close RefJSON.parse Codex (Some 0) numeric_message ""
     = Resolve (JObj [("result", JStr numeric_message)]).
Proof. split; vm_compute; reflexivity. Qed.

Lemma codex_fallback_only_without_slice_witness :
  parseCodexJSONL RefJSON.parse "hello" = Ok parsed_start
  /\ on_close RefJSON.parse Codex (Some 0) four_events ""
     = Resolve (JObj [("result", JStr "B"); ("session_id", JStr "t1");
                      ("token_usage",
                       JObj [("input_tokens", JNum 3); ("output_tokens", JNum 4)])]).
Proof.
  split.
  - destruct (codex_fallback_only_without_slice RefJSON.parse "hello" "")
      as (Hparse & Hstart & _).
    rewrite Hparse, (Hstart eq_refl). reflexivity.
  - destruct (codex_fallback_only_without_slice RefJSON.parse four_events "")
      as (_ & _ & _ & _ & Htext).
    exact (Htext "B" eq_refl).
Defined.

Lemma parse_failure_degrades_to_raw_output_witness :
  structured RefJSON.parse Claude "  plain text  " = Throw (Error "SyntaxError")
  /\ on_close RefJSON.parse Claude (Some 0) "  plain text  " ""
     = Resolve (JObj [("result", JStr "plain text")]).
Proof.
  split; [reflexivity|].
  exact (proj1 (parse_failure_degrades_to_raw_output RefJSON.parse Claude
                  "  plain text  " "" (Error "SyntaxError") eq_refl)).
Defined.

Lemma nonzero_exit_rejects_witness :
  exited_zero (Some 3) = false
  /\ on_close RefJSON.parse Gemini (Some 3) "partial output" ""
     = Reject (Error "gemini exited with code 3").
Proof.
  split; [reflexivity|].
  exact (proj1 (nonzero_exit_rejects RefJSON.parse Gemini (Some 3)
                  "partial output" "" eq_refl)).
Defined.

Lemma timeout_bounds_every_invocation_witness :
  existsb ends (List.filter before_bound [(5, Stdout "partial")]) = false
  /\ promise (invoke RefJSON.parse Codex [(5, Stdout "partial")])
     = Some (120000, Reject (Error "Codex timed out after 120s"))
  /\ killed (invoke RefJSON.parse Codex [(5, Stdout "partial")]) = [(120000, SIGKILL)].
Proof.
  split; [reflexivity|].
  exact (proj2 (timeout_bounds_every_invocation RefJSON.parse Codex
                  [(5, Stdout "partial")]) eq_refl).
Defined.

Lemma failed_call_keeps_turns_and_token_witness :
  ask_begin RefJSON.parse host_all ask_claude_on_conv_1 pinned_store
  = (Ok (Await claude_call_conv_1), pinned_store)
  /\ ask RefJSON.parse host_all times_out ask_claude_on_conv_1 pinned_store
     = (Ok (SendError 500 (Error "Claude timed out after 120s"), Some claude_call_conv_1),
        pinned_store).
Proof.
  assert (Hbegin : ask_begin RefJSON.parse host_all ask_claude_on_conv_1 pinned_store
                   = (Ok (Await claude_call_conv_1), pinned_store))
    by (vm_compute; reflexivity).
  split; [exact Hbegin|].
  exact (proj1 (failed_call_keeps_turns_and_token RefJSON.parse host_all
                  ask_claude_on_conv_1 pinned_store pinned_store claude_call_conv_1
                  times_out (Error "Claude timed out after 120s") Hbegin eq_refl)).
Defined.

(** C1, the claim as stated fails: the conversation is pinned to claude
    with one turn, the request asks for codex, and the answer is that the
    codex binary is missing, not the provider mismatch. *)
Lemma unavailable_agent_answers_first :
  pinned_store !! "conv_1" = Some pinned
  /\ ask RefJSON.parse host_no_codex never_called ask_codex_on_conv_1 pinned_store
     = (Ok (SendError 400 (Error "Codex CLI not found at /opt/homebrew/bin/codex"), None),
        pinned_store)
  /\ mismatch_error pinned
     = Error "Cannot switch provider mid-conversation. This conversation uses claude.".
Proof. repeat split; vm_compute; reflexivity. Qed.

Lemma pinned_conversation_refuses_other_agent_witness :
  ask RefJSON.parse host_all never_called ask_codex_on_conv_1 pinned_store
  = (Ok (SendError 400
           (Error "Cannot switch provider mid-conversation. This conversation uses claude."),
         None),
     pinned_store).
Proof.
  refine (proj2 (pinned_conversation_refuses_other_agent RefJSON.parse host_all
                   ask_codex_on_conv_1 pinned_store never_called
                   (JObj [("prompt", JStr "hi"); ("conversationId", JStr "conv_1");
                          ("provider", JStr "codex")])
                   "conv_1" pinned Claude Codex _ _ _ _ _ _ _ _) _ _);
    first [reflexivity | lia | discriminate].
Defined.

(** C8, the code at the failing input: a conversation made by POST /new
    is stored under claude; its first /ask, for codex, passes the guard
    (no turn yet) and is served by codex, whose thread id is stored, while
    the stored provider stays claude.  From then on codex is refused on
    this conversation and claude is resumed with the thread id of codex
    ([--resume thread-1]). *)
Theorem first_turn_agent_is_not_stored :
  new_conversation RefJSON.parse host_all "{}" ∅
  = (Ok (Send 200 (JObj [("conversationId", JStr "conv_1700000000000");
                         ("provider", JStr "claude")])),
     store_after_new)
  /\ ask RefJSON.parse host_later codex_answers (ask_on_new "codex") store_after_new
     = (Ok (Send 200 (JObj [("result", JStr "ok");
                            ("conversationId", JStr "conv_1700000000000");
                            ("provider", JStr "codex"); ("turn", JNum 1);
                            ("tokens", JObj [("input", JNum 0); ("output", JNum 0)])]),
            Some {| callee := Codex; prompt := JStr "hi";
                    given := {| opt_sessionId := Some JNull; opt_model := None;
                                opt_systemPrompt := None |};
                    conversation := "conv_1700000000000" |}),
        store_after_first_turn)
  /\ ask RefJSON.parse host_later never_called (ask_on_new "codex") store_after_first_turn
     = (Ok (SendError 400
              (Error "Cannot switch provider mid-conversation. This conversation uses claude."),
            None),
        store_after_first_turn)
  /\ ask_begin RefJSON.parse host_later (ask_on_new "claude") store_after_first_turn
     = (Ok (Await {| callee := Claude; prompt := JStr "hi";
                     given := {| opt_sessionId := Some (JStr "thread-1"); opt_model := None;
                                 opt_systemPrompt := Some (JStr DEFAULT_SYSTEM_PROMPT) |};
                     conversation := "conv_1700000000000" |}),
        store_after_first_turn)
  /\ spawn_args Claude (JStr "hi")
       {| opt_sessionId := Some (JStr "thread-1"); opt_model := None;
          opt_systemPrompt := Some (JStr DEFAULT_SYSTEM_PROMPT) |}
     = [JStr "-p"; JStr "hi"; JStr "--output-format"; JStr "json";
        JStr "--resume"; JStr "thread-1";
        JStr "--system-prompt"; JStr DEFAULT_SYSTEM_PROMPT].
Proof. repeat split; vm_compute; reflexivity. Qed.

(** C6, the claim as stated fails: with the transcript written as the
    claim writes it (the role carrying "moderator" or the agent), no entry
    is rendered, neither line is in the prompt, and the others are the
    two agents that are not the target. *)
Lemma transcript_by_role_is_not_rendered :
  transcript roundtable_by_role = ""
  /\ contains "[Human]: Topic?" (formatDiscussionPrompt roundtable_by_role "gemini" None)
     = false
  /\ contains "[Claude]: X" (formatDiscussionPrompt roundtable_by_role "gemini" None)
     = false
  /\ otherNames roundtable_by_role "gemini" None = ["Claude"; "Codex"].
Proof. repeat split; vm_compute; reflexivity. Qed.

Lemma discussion_prompt_renders_user_and_provider_witness :
  Forall plain roundtable
  /\ transcript roundtable
     = "[Human]: Topic?" ++ blank_line ++ "[Claude]: X" ++ blank_line
       ++ "[Gemini]: Y" ++ blank_line.
Proof.
  assert (Hplain : Forall plain roundtable)
    by (repeat constructor).
  split; [exact Hplain|].
  exact (proj1 (discussion_prompt_renders_user_and_provider roundtable "gemini" None Hplain)).
Defined.

(** C7, the claim as stated fails: a participant list that holds only the
    target leaves nobody to address, also for a single-entry transcript. *)
Lemma only_the_target_listed :
  otherNames [Message (Some "user") None "Topic?"] "claude" (Some ["claude"]) = []
  /\ starts_with "You are Claude in a roundtable discussion with  and a human moderator."
       (formatDiscussionPrompt [Message (Some "user") None "Topic?"] "claude"
          (Some ["claude"])) = true.
Proof. split; vm_compute; reflexivity. Qed.

Lemma other_participants_fallback_witness :
  otherNames roundtable "gemini" (Some ["claude"; "gemini"; "codex"]) = ["Claude"; "Codex"].
Proof.
  refine (proj1 (proj2 (proj2 (other_participants_fallback roundtable "gemini"
                                 ["claude"; "gemini"; "codex"]))) _).
  discriminate.
Defined.

(** ** Concrete runs of the further facts *)

Lemma close_sees_all_output_witness :
  promise (invoke RefJSON.parse Claude
             (map (received RefText.decode) cut_reply
              ++ (20, Close (Some 0)) :: [(30, Stdout "late")]))
  = Some (20, Resolve (JObj [("result",
                             JStr ("caf" ++ RefText.replacement ++ RefText.replacement
                                   ++ "!"))])).
Proof.
  refine (close_sees_all_output RefJSON.parse RefText.decode Claude cut_reply
            [(30, Stdout "late")] 20 (Some 0) _ _).
  - repeat constructor.
  - reflexivity.
Defined.

Lemma spawn_error_rejects_witness :
  promise (invoke RefJSON.parse Codex
             ([] ++ (0, SpawnError (Error "spawn /opt/homebrew/bin/codex ENOENT"))
                 :: [(1, Close (Some (-2)))]))
  = Some (0, Reject (Error "spawn /opt/homebrew/bin/codex ENOENT")).
Proof.
  refine (spawn_error_rejects RefJSON.parse Codex [] [(1, Close (Some (-2)))] 0
            (Error "spawn /opt/homebrew/bin/codex ENOENT") _ _).
  - constructor.
  - reflexivity.
Defined.

Lemma ended_process_is_never_killed_witness :
  killed (invoke RefJSON.parse Claude [(5, Stdout "x"); (20, Close (Some 0))]) = [].
Proof.
  exact (proj1 (ended_process_is_never_killed RefJSON.parse Claude
                  [(5, Stdout "x"); (20, Close (Some 0))] eq_refl)).
Defined.


Lemma claude_input_sums_cache_tokens_witness :
  extractTokens claude_document Claude = Ok {| input := JNum 13; output := JNum 7 |}.
Proof.
  refine (claude_input_sums_cache_tokens claude_document _ 3 10 0 7
            eq_refl eq_refl eq_refl eq_refl eq_refl _ _ _ _);
    unfold safe; lia.
Defined.

Lemma codex_usage_reaches_tokens_witness :
  extractTokens (codex_result (parsed_spec RefJSON.parse four_events)) Codex
  = Ok {| input := JNum 3; output := JNum 4 |}.
Proof.
  refine (proj2 (codex_usage_reaches_tokens RefJSON.parse four_events ""
                   [("input_tokens", JNum 3); ("output_tokens", JNum 4)] 3 0 4 0
                   _ _ eq_refl eq_refl eq_refl eq_refl));
    vm_compute; reflexivity.
Defined.

Lemma gemini_usage_sums_models_witness :
  on_close RefJSON.parse Gemini (Some 0) gemini_output ""
  = Resolve (JObj [("result", JStr "hi"); ("session_id", JStr "g1");
                   ("token_usage", JObj [("input", JNum 4); ("output", JNum 6)])]).
Proof.
  refine (proj1 (gemini_usage_sums_models RefJSON.parse gemini_output "" gemini_document
                   (JObj [("models", JObj gemini_models)]) gemini_models 4 6
                   _ eq_refl eq_refl eq_refl _ _ _ eq_refl)).
  - vm_compute. reflexivity.
  - repeat constructor; discriminate.
  - unfold safe. lia.
  - unfold safe. lia.
Defined.

Lemma malformed_request_changes_nothing_witness :
  ask RefJSON.parse host_all never_called "not json" pinned_store
  = (Ok (SendError 500 (Error "Invalid JSON body"), None), pinned_store).
Proof.
  exact (proj1 (malformed_request_changes_nothing RefJSON.parse host_all never_called
                  "not json" pinned_store) eq_refl).
Defined.

Lemma unusable_provider_is_refused_witness :
  ask RefJSON.parse host_all never_called (quoted "{'prompt':'hi','provider':'gpt'}")
    pinned_store
  = (Ok (SendError 400 (Error "Invalid provider. Must be 'claude', 'codex', or 'gemini'"),
         None), pinned_store).
Proof.
  exact (proj1 (unusable_provider_is_refused RefJSON.parse host_all never_called
                  (quoted "{'prompt':'hi','provider':'gpt'}") pinned_store
                  (JObj [("prompt", JStr "hi"); ("provider", JStr "gpt")])
                  eq_refl eq_refl) eq_refl).
Defined.

Lemma gemini_passes_checks : passes_checks host_all ask_gemini_body Gemini.
Proof. repeat split. Qed.

Lemma claude_passes_checks : passes_checks host_all ask_claude_body Claude.
Proof. repeat split. Qed.

Lemma unknown_conversation_starts_fresh_witness :
  snd (ask RefJSON.parse host_all answers_with_session ask_gemini_on_unknown pinned_store)
  = <[ "conv_1700000000000" :=
         {| sessionId := Some (JStr "s2"); turns := 1;
            created := "2023-11-14T22:13:20.000Z"; provider := Some (JStr "gemini") |} ]>
      pinned_store.
Proof.
  refine (proj2 (unknown_conversation_starts_fresh RefJSON.parse host_all
                   answers_with_session ask_gemini_on_unknown pinned_store
                   ask_gemini_body session_answer Gemini _ gemini_passes_checks _ eq_refl _)).
  - vm_compute. reflexivity.
  - vm_compute. reflexivity.
  - discriminate.
Defined.

Lemma prompt_without_slice_fails_late_witness :
  ask RefJSON.parse host_all never_called (quoted "{'prompt':5}") pinned_store
  = (Ok (SendError 500 TypeError, None),
     <[ "conv_1700000000000" := fresh host_all Claude ]> pinned_store).
Proof.
  refine (prompt_without_slice_fails_late RefJSON.parse host_all never_called
            (quoted "{'prompt':5}") pinned_store (JObj [("prompt", JNum 5)]) Claude
            _ eq_refl eq_refl eq_refl eq_refl eq_refl).
  vm_compute. reflexivity.
Defined.

Lemma next_turn_resumes_returned_session_witness :
  ask_begin RefJSON.parse host_later ask_claude_on_conv_1
    (snd (ask RefJSON.parse host_all answers_with_session ask_claude_on_conv_1 pinned_store))
  = (Ok (Await (call_of Claude ask_claude_body (Some (JStr "s2")) "conv_1")),
     snd (ask RefJSON.parse host_all answers_with_session ask_claude_on_conv_1 pinned_store)).
Proof.
  refine (proj2 (next_turn_resumes_returned_session RefJSON.parse host_all host_later
                   answers_with_session ask_claude_on_conv_1 ask_claude_on_conv_1
                   pinned_store ask_claude_body ask_claude_body session_answer Claude
                   "conv_1" pinned _ claude_passes_checks _ _ _ _ _ eq_refl eq_refl _));
    first [ discriminate | vm_compute; reflexivity | repeat split ].
Defined.


Lemma ask_never_drops_a_conversation_witness :
  exists cv,
    snd (ask RefJSON.parse host_all never_called "not json" pinned_store) !! "conv_1"
    = Some cv
    /\ 1 <= turns cv <= 2.
Proof.
  refine (ask_never_drops_a_conversation RefJSON.parse host_all never_called "not json"
            pinned_store "conv_1" pinned _ _).
  - vm_compute. reflexivity.
  - vm_compute. discriminate.
Defined.



Lemma log_lines_are_kept_in_order_witness :
  held (fold_left (log_step RefJSON.print) two_flushes logger_start)
  = held logger_start ++ as_lines (logged_lines RefJSON.print two_flushes).
Proof.
  refine (proj2 (log_lines_are_kept_in_order RefJSON.print two_flushes logger_start _ _)).
  - vm_compute. auto.
  - repeat constructor.
Defined.


Lemma null_entry_fails_the_discussion_witness :
  formatDiscussionPrompt_json RefJSON.number_positive
    [encode (Message (Some "user") None "Topic?"); JNull] "claude" None
  = Throw TypeError.
Proof.
  refine (proj1 (null_entry_fails_the_discussion RefJSON.parse RefJSON.number_positive
                   host_all "" JNull
                   [encode (Message (Some "user") None "Topic?"); JNull] Claude _)
            "claude" None).
  right. left. reflexivity.
Defined.

Lemma discuss_checks_history_then_provider_witness :
  discuss_begin RefJSON.parse RefJSON.number_positive host_all (quoted "{'history':[]}")
  = Answered (SendError 400
                (Error "Invalid provider. Must be 'claude', 'codex', or 'gemini'")).
Proof.
  refine (proj1 (proj2 (discuss_checks_history_then_provider RefJSON.parse
                          RefJSON.number_positive host_all (quoted "{'history':[]}")
                          (JObj [("history", JArr [])]) _ _)) eq_refl eq_refl).
  - vm_compute. reflexivity.
  - discriminate.
Defined.

Lemma discussion_calls_without_session_witness :
  discuss_begin RefJSON.parse RefJSON.number_positive host_all discuss_codex
  = Asked {| speaker_asked := Codex;
             synthesized := formatDiscussionPrompt two_entries "codex" None |}.
Proof.
  refine (proj1 (discussion_calls_without_session RefJSON.parse RefJSON.number_positive
                   host_all discuss_codex discuss_codex_body two_entries None Codex
                   _ eq_refl eq_refl eq_refl eq_refl)).
  vm_compute. reflexivity.
Defined.



Lemma logs_show_what_was_logged_witness :
  view_logs RefJSON.parse
    (Some (log_file
             (appendFile_done true
                (writeLogsToFile
                   {| logQueue := map RefJSON.print newer_entries; isWritingLog := false;
                      writing := None;
                      log_file := as_lines (map RefJSON.print older_entries) |}))))
  = Send 200 (JObj [("logs", JArr (last_n 50 (older_entries ++ newer_entries)))]).
Proof.
  refine (proj1 (logs_show_what_was_logged RefJSON.parse RefJSON.print
                   {| logQueue := map RefJSON.print newer_entries; isWritingLog := false;
                      writing := None;
                      log_file := as_lines (map RefJSON.print older_entries) |}
                   older_entries newer_entries eq_refl eq_refl eq_refl _ _)).
  - discriminate.
  - repeat constructor; vm_compute; reflexivity.
Defined.

Lemma unreadable_log_is_shown_empty_witness :
  view_logs RefJSON.parse (Some broken_log) = Send 200 (JObj [("logs", JArr [])]).
Proof.
  refine (unreadable_log_is_shown_empty RefJSON.parse (Some broken_log) _).
  right. exists broken_log, "oops". split; [reflexivity|]. split.
  - vm_compute. right. left. reflexivity.
  - vm_compute. reflexivity.
Defined.


(** C5 on the example of the line protocol: of the six lines of the text
    five parse, the line that is not JSON is skipped and the value [null]
    sets nothing; the second agent message wins, and the usage is that of
    the completed turn. *)
Lemma codex_jsonl_last_event_wins_witness :
  lines_of (trim four_events) four_lines
  /\ events_in RefJSON.parse four_lines
     = [ JObj [("type", JStr "thread.started"); ("thread_id", JStr "t1")];
         JObj [("type", JStr "item.completed");
               ("item", JObj [("type", JStr "agent_message"); ("text", JStr "A")])];
         JNull;
         JObj [("type", JStr "item.completed");
               ("item", JObj [("type", JStr "agent_message"); ("text", JStr "B")])];
         JObj [("type", JStr "turn.completed");
               ("usage", JObj [("input_tokens", JNum 3); ("output_tokens", JNum 4)])] ]
  /\ parseCodexJSONL RefJSON.parse four_events
     = Ok {| p_sessionId := JStr "t1"; p_result := JStr "B";
             p_tokenUsage := JObj [("input_tokens", JNum 3); ("output_tokens", JNum 4)];
             p_aborted := false |}.
Proof.
  assert (Hlines : lines_of (trim four_events) four_lines).
  { split; [discriminate|]. split; [|vm_compute; reflexivity].
    repeat constructor. }
  split; [exact Hlines|]. split; [vm_compute; reflexivity|].
  exact (proj2 (codex_jsonl_last_event_wins RefJSON.parse four_events) four_lines Hlines).
Defined.

Lemma new_conversation_always_created_witness :
  new_conversation RefJSON.parse host_all (quoted "{'provider':'codex'}") pinned_store
  = (Ok (Send 200 (JObj [("conversationId", JStr "conv_1700000000000");
                         ("provider", JStr "codex")])),
     <[ "conv_1700000000000" := fresh host_all Codex ]> pinned_store).
Proof.
  destruct (new_conversation_always_created RefJSON.parse host_all
              (quoted "{'provider':'codex'}") pinned_store)
    as (p & Hrun & _ & _ & _ & _ & Hcodex & _).
  rewrite (Hcodex (JObj [("provider", JStr "codex")]) eq_refl eq_refl) in Hrun.
  exact Hrun.
Defined.

(** The character cut by the end of the first chunk of [cut_reply] is not
    restored: the bytes of the two chunks together are the text of a
    reply that the two texts together are not. *)
Example cut_character_is_replaced :
  RefText.decode (concat_text (map bytes (List.filter on_stdout cut_reply)))
  = "caf" ++ String (ascii_of_nat 195) (String (ascii_of_nat 169) "!")
  /\ concat_text (texts RefText.decode true cut_reply)
     = "caf" ++ RefText.replacement ++ RefText.replacement ++ "!".
Proof. split; vm_compute; reflexivity. Qed.
